(** * ST7735R display driver: colour codec and frame transfer

    A shallow embedding of [drivers/st7735r/st7735r144.py]: the viper kernel
    [_lcopy], the colour encoder [ST7735R.rgb], the bus framing helpers
    [_wcmd] and [_wcd], the power-up sequence [_init] and the refresh loop
    [show], together with the properties of the refresh pipeline. *)

From Stdlib Require Import ZArith.
From Stdlib.Strings Require Import Byte.
From stdpp Require Import base option list.

Local Open Scope Z_scope.

(** ** Bytes

    A [bytearray] cell holds one of 256 values; its integer value is what
    Python reads from it, and a store through a viper [ptr8] keeps the low
    eight bits of the integer written. *)

Definition Z_of_byte (b : byte) : Z := Z.of_N (Byte.to_N b).

Definition byte_of_Z (z : Z) : byte :=
  match Byte.of_N (Z.to_N (Z.land z 0xff)) with
  | Some b => b
  | None => x00
  end.

(** ** The colour codec *)

(** A viper [ptr8] is a raw pointer into the buffer passed for it: a load
    gives the integer value of the byte, a store keeps the low eight bits of
    the integer stored. Neither checks a bound, so an index outside the
    object has no defined meaning: the model answers [None] there. *)
Definition ptr8_load (p : list byte) (i : nat) : option Z :=
  Z_of_byte <$> p !! i.

Definition ptr8_store (p : list byte) (i : nat) (v : Z) : option (list byte) :=
  if decide (i < length p)%nat then Some (<[i := byte_of_Z v]> p) else None.

(** The body of [for x in range(length)], with [k] iterations to go, [x]
    the loop variable and [n] the destination index. *)
Fixpoint _lcopy_loop (k : nat) (x n : nat) (dest source : list byte)
  : option (list byte) :=
  match k with
  | O => Some dest
  | S k' =>
      c ← ptr8_load source x;
      dest ← ptr8_store dest n
               (Z.lor (Z.shiftl (Z.land c 3) 6) (Z.shiftr (Z.land c 0x1c) 2));
      let n := (n + 1)%nat in
      dest ← ptr8_store dest n (Z.shiftr (Z.land c 0xe0) 3);
      let n := (n + 1)%nat in
      _lcopy_loop k' (x + 1)%nat n dest source
  end.

(** [_lcopy(dest, source, length)]. The destination is updated in place; the
    model returns its new contents. [range(length)] is empty for a negative
    [length]. A viper [int] is a machine word; the pixel counts the driver
    passes are lengths of buffers in memory and fit in it. *)
Definition _lcopy (dest source : list byte) (length : Z) : option (list byte) :=
  _lcopy_loop (Z.to_nat length) 0 0 dest source.

(** The two values stored for a source value [c], by name. *)
Definition blue_green (c : Z) : Z :=
  Z.lor (Z.shiftl (Z.land c 3) 6) (Z.shiftr (Z.land c 0x1c) 2).

Definition red (c : Z) : Z := Z.shiftr (Z.land c 0xe0) 3.

(** [ST7735R.rgb(r, g, b)]. *)
Definition rgb (r g b : Z) : Z :=
  Z.lor (Z.lor (Z.land r 0xe0) (Z.land (Z.shiftr g 3) 0x1c)) (Z.shiftr b 6).

(** The sub-fields of a packed colour [RRRGGGBB]. *)
Definition red_field (c : Z) : Z := Z.shiftr c 5.
Definition green_field (c : Z) : Z := Z.land (Z.shiftr c 2) 7.
Definition blue_field (c : Z) : Z := Z.land c 3.

(** The inverse wire mapping: the sub-fields read back from the two bytes
    that [_lcopy] emits for a pixel ([b0] first, [b1] second), and the packed
    colour they make up. The driver itself never decodes; these are the
    reading side of the wire format. *)
Definition wire_red (b0 b1 : Z) : Z := Z.land (Z.shiftr b1 2) 7.
Definition wire_green (b0 b1 : Z) : Z := Z.land b0 7.
Definition wire_blue (b0 b1 : Z) : Z := Z.shiftr b0 6.

Definition wire_decode (b0 b1 : Z) : Z :=
  Z.lor (Z.lor (Z.shiftl (wire_red b0 b1) 5) (Z.shiftl (wire_green b0 b1) 2))
        (wire_blue b0 b1).

(** ** The 12-bit codec *)

(** The body of [for x in range(0, length, 2)] in [_lcopy12], with [k]
    iterations to go: two source bytes in, three destination bytes out. *)
Fixpoint _lcopy12_loop (k : nat) (x n : nat) (dest source : list byte)
  : option (list byte) :=
  match k with
  | O => Some dest
  | S k' =>
      c ← ptr8_load source x;
      d ← ptr8_load source (x + 1)%nat;
      dest ← ptr8_store dest n
               (Z.lor (Z.land c 0xe0) (Z.shiftr (Z.land c 0x1c) 1));
      let n := (n + 1)%nat in
      dest ← ptr8_store dest n
               (Z.lor (Z.shiftl (Z.land c 3) 6) (Z.shiftr (Z.land d 0xe0) 4));
      let n := (n + 1)%nat in
      dest ← ptr8_store dest n
               (Z.lor (Z.shiftl (Z.land d 0x1c) 3) (Z.shiftl (Z.land d 3) 2));
      let n := (n + 1)%nat in
      _lcopy12_loop k' (x + 2)%nat n dest source
  end.

(** [_lcopy12(dest, source, length)]. [range(0, length, 2)] has
    [(length + 1) // 2] elements for a positive [length] and none
    otherwise. *)
Definition _lcopy12 (dest source : list byte) (length : Z)
  : option (list byte) :=
  _lcopy12_loop (Z.to_nat ((length + 1) / 2)) 0 0 dest source.

(** The three values stored for a pair of source values, by name. *)
Definition r0g0 (c : Z) : Z :=
  Z.lor (Z.land c 0xe0) (Z.shiftr (Z.land c 0x1c) 1).

Definition b0r1 (c d : Z) : Z :=
  Z.lor (Z.shiftl (Z.land c 3) 6) (Z.shiftr (Z.land d 0xe0) 4).

Definition g1b1 (d : Z) : Z :=
  Z.lor (Z.shiftl (Z.land d 0x1c) 3) (Z.shiftl (Z.land d 3) 2).

Definition wire12_pair (sc sd : byte) : list byte :=
  [byte_of_Z (r0g0 (Z_of_byte sc));
   byte_of_Z (b0r1 (Z_of_byte sc) (Z_of_byte sd));
   byte_of_Z (g1b1 (Z_of_byte sd))].

(** What [_lcopy12] leaves in a destination of exactly three bytes per
    pair, for [k] pairs. *)
Fixpoint encode_line12 (source : list byte) (k : nat) : list byte :=
  match k, source with
  | S k', sc :: sd :: rest => wire12_pair sc sd ++ encode_line12 rest k'
  | _, _ => []
  end.

(** The reading side of the 12-bit format: three bytes hold two pixels of
    three 4-bit channels each, in the order R G B R G B. *)
Definition rgb444_first (b0 b1 b2 : Z) : Z * Z * Z :=
  (Z.shiftr b0 4, Z.land b0 0xf, Z.shiftr b1 4).

Definition rgb444_second (b0 b1 b2 : Z) : Z * Z * Z :=
  (Z.land b1 0xf, Z.shiftr b2 4, Z.land b2 0xf).

(** ** The device and its collaborators *)

#[global] Instance byte_eq_decision : EqDecision byte := Byte.byte_eq_dec.

(** What the driver does to its collaborators, in call order: a call of one
    of the three pin objects with the level it sets, a call of
    [spi.write] with the bytes passed (the contents of the buffer at the
    time of the call), and a call of [sleep_ms]. *)
Inductive event : Type :=
  | Dc (v : Z)
  | Cs (v : Z)
  | Rst (v : Z)
  | SpiWrite (buf : list byte)
  | SleepMs (ms : Z).

(** The number of [spi.write] calls in a log. *)
Fixpoint writes (t : list event) : nat :=
  match t with
  | [] => O
  | SpiWrite _ :: t' => S (writes t')
  | _ :: t' => writes t'
  end.

(** The fields of an [ST7735R] object that the driver code uses.
    [_spi] stands for the bus transport: [_spi k] tells whether the call of
    [write] that comes after [k] earlier calls raises. [buffer] is the
    [bytearray] that [_mvb] views, [_linebuf] the separate [bytearray]
    allocated for one converted line. [wire] is the log of the calls made
    on the transport and the pins so far. *)
Record ST7735R : Type := mkST7735R {
  _spi : nat -> bool;
  height : Z;
  width : Z;
  buffer : list byte;
  _linebuf : list byte;
  wire : list event
}.

Definition log (e : event) (s : ST7735R) : ST7735R :=
  mkST7735R (_spi s) (height s) (width s) (buffer s) (_linebuf s)
            (wire s ++ [e]).

Definition set_linebuf (lb : list byte) (s : ST7735R) : ST7735R :=
  mkST7735R (_spi s) (height s) (width s) (buffer s) lb (wire s).

(** How a call ends: normally, with an exception that nothing in the driver
    catches, or outside what the model gives a meaning to (a raw access
    out of an object, a loop that outlives its fuel). *)
Inductive result (A : Type) : Type :=
  | Ok (a : A)
  | Raised
  | OutOfBounds
  | OutOfFuel.
Arguments Ok {A} a.
Arguments Raised {A}.
Arguments OutOfBounds {A}.
Arguments OutOfFuel {A}.

(** Code that runs against the device: state passing with early exit. *)
Definition M (A : Type) : Type := ST7735R -> result A * ST7735R.

#[global] Instance M_ret : MRet M := fun A a s => (Ok a, s).

#[global] Instance M_bind : MBind M := fun A B f m s =>
  match m s with
  | (Ok a, s') => f a s'
  | (Raised, s') => (Raised, s')
  | (OutOfBounds, s') => (OutOfBounds, s')
  | (OutOfFuel, s') => (OutOfFuel, s')
  end.

(** The pin objects are called with the level; such a call never raises. *)
Definition _dc (v : Z) : M unit := fun s => (Ok tt, log (Dc v) s).
Definition _cs (v : Z) : M unit := fun s => (Ok tt, log (Cs v) s).
Definition _rst (v : Z) : M unit := fun s => (Ok tt, log (Rst v) s).
Definition sleep_ms (ms : Z) : M unit := fun s => (Ok tt, log (SleepMs ms) s).

(** [self._spi.write(buf)]: the call reaches the transport, which may
    raise. *)
Definition spi_write (buf : list byte) : M unit := fun s =>
  let s' := log (SpiWrite buf) s in
  if _spi s (writes (wire s)) then (Raised, s') else (Ok tt, s').

(** [int.to_bytes(n, length, 'big')] of MicroPython, the interpreter the
    driver is written for: the [length] low-order bytes of [n], the most
    significant first. A value that needs more bytes loses its high part. *)
Fixpoint to_bytes_big (n : Z) (length : nat) : list byte :=
  match length with
  | O => []
  | S l => byte_of_Z (Z.shiftr n (8 * Z.of_nat l)) :: to_bytes_big n l
  end.

(** The reading side of [to_bytes_big]: the integer that a sequence of
    bytes spells, the most significant first. *)
Definition from_bytes_big (bs : list byte) : Z :=
  fold_left (fun acc b => acc * 256 + Z_of_byte b) bs 0.

(** ** The driver *)

Definition _hwreset : M unit :=
  _dc 0;;
  _rst 1;;
  sleep_ms 1;;
  _rst 0;;
  sleep_ms 1;;
  _rst 1;;
  sleep_ms 1.

Definition _wcmd (buf : list byte) : M unit :=
  _dc 0;;
  _cs 0;;
  spi_write buf;;
  _cs 1.

Definition _wcd (c d : list byte) : M unit :=
  _dc 0;;
  _cs 0;;
  spi_write c;;
  _cs 1;;
  _dc 1;;
  _cs 0;;
  spi_write d;;
  _cs 1.

Definition _init : M unit :=
  _hwreset;;
  _wcmd [x01];;
  sleep_ms 150;;
  _wcmd [x11];;
  sleep_ms 256;;
  _wcd [xb1] [x01; x2c; x2d];;
  _wcd [xb2] [x01; x2c; x2d];;
  _wcd [xb3] [x01; x2c; x2d; x01; x2c; x2d];;
  _wcd [xb4] [x07];;
  _wcd [xc0] [xa2; x02; x84];;
  _wcd [xc1] [xc5];;
  _wcd [xc2] [x0a; x00];;
  _wcd [xc3] [x8a; x2a];;
  _wcd [xc4] [x8a; xee];;
  _wcd [xc5] [x0e];;
  _wcmd [x20];;
  _wcd [x36] [xe0];;
  _wcd [x3a] [x05];;
  _wcd [xe0] [x02; x1c; x07; x12; x37; x32; x29; x2d;
              x29; x25; x2b; x39; x00; x01; x03; x10];;
  _wcd [xe1] [x03; x1d; x07; x06; x2e; x2c; x29; x2d;
              x2e; x2e; x37; x3f; x00; x00; x02; x10];;
  _wcmd [x13];;
  sleep_ms 10;;
  _wcmd [x29];;
  sleep_ms 100.

(** [_lcopy(lb, buf[start :], wd)] inside [show]: [lb] is [self._linebuf]
    and [buf] the view of [self.buffer]. *)
Definition lcopy_line (start wd : Z) : M unit := fun s =>
  match _lcopy (_linebuf s) (drop (Z.to_nat start) (buffer s)) wd with
  | Some lb => (Ok tt, set_linebuf lb s)
  | None => (OutOfBounds, s)
  end.

(** The [while row >= 0] loop of [show]. The loop test is the source's; the
    fuel only bounds the recursion, and running out of it with the test
    still true is reported as [OutOfFuel]. *)
Fixpoint show_loop (fuel : nat) (wd start row : Z) : M unit :=
  if decide (row >= 0) then
    match fuel with
    | O => fun s => (OutOfFuel, s)
    | S fuel' =>
        lcopy_line start wd;;
        _wcd [x2a] (to_bytes_big (Z.shiftl 3 16 + 160) 4);;
        _wcd [x2b] (to_bytes_big (Z.shiftl (row + 2) 16 + row + 3) 4);;
        (fun s => _wcd [x2c] (_linebuf s) s);;
        show_loop fuel' wd (start + wd) (row - 1)
    end
  else mret tt.

Definition show : M unit := fun s =>
  let wd := width s in
  let start := 0 in
  let row := height s - 1 in
  show_loop (Z.to_nat (row + 1)) wd start row s.

(** [bytearray(n)]: [n] zero bytes; a negative size raises [ValueError]. *)
Definition bytearray (n : Z) : option (list byte) :=
  if decide (n < 0) then None else Some (replicate (Z.to_nat n) x00).

(** [ST7735R(spi, cs, dc, rst, height, width)]: the two buffers are
    allocated, then [_init] and [show] run. [None] stands for the
    [ValueError] of an allocation, raised before any bus traffic; [wire0] is
    what the collaborators had seen before. *)
Definition __init__ (spi : nat -> bool) (wire0 : list event) (height width : Z)
  : option (result unit * ST7735R) :=
  buffer ← bytearray (height * width);
  linebuf ← bytearray (width * 2);
  Some ((_init;; show) (mkST7735R spi height width buffer linebuf wire0)).

(** ** Reading a log *)

(** The constructor-time invariant of a device: the sizes of its two
    buffers follow its dimensions. *)
Definition wf (s : ST7735R) : Prop :=
  0 <= height s /\ 0 <= width s /\
  length (buffer s) = Z.to_nat (height s * width s) /\
  length (_linebuf s) = Z.to_nat (width s * 2).

(** The transport accepts every write. *)
Definition reliable (s : ST7735R) : Prop := forall k, _spi s k = false.

(** The bus writes of a log, each with the level of the data/command line
    at the time ([dc] is the level before the first event). *)
Fixpoint bus_writes (dc : Z) (t : list event) : list (Z * list byte) :=
  match t with
  | [] => []
  | Dc v :: t' => bus_writes v t'
  | SpiWrite buf :: t' => (dc, buf) :: bus_writes dc t'
  | _ :: t' => bus_writes dc t'
  end.

(** The data writes at the head of a list of bus writes. *)
Fixpoint data_run (ws : list (Z * list byte)) : list (list byte) :=
  match ws with
  | (dc, buf) :: ws' => if decide (dc = 0) then [] else buf :: data_run ws'
  | [] => []
  end.

(** Bus writes grouped into transactions: a write in command mode (line
    low) opens one, the data writes that follow it are its payloads. *)
Fixpoint transactions (ws : list (Z * list byte))
  : list (list byte * list (list byte)) :=
  match ws with
  | [] => []
  | (dc, buf) :: ws' =>
      if decide (dc = 0) then (buf, data_run ws') :: transactions ws'
      else transactions ws'
  end.

Definition commands (t : list event) : list (list byte * list (list byte)) :=
  transactions (bus_writes 0 t).

(** The transactions of command [cmd] in a log, and their payloads in the
    order of issue. *)
Definition issued (cmd : list byte) (t : list event)
  : list (list byte * list (list byte)) :=
  filter (fun tx => tx.1 = cmd) (commands t).

Definition payloads (cmd : list byte) (t : list event) : list (list byte) :=
  concat (map snd (issued cmd t)).

Definition CASET : list byte := [x2a].
Definition RASET : list byte := [x2b].
Definition RAMWR : list byte := [x2c].

(** Chip-select framing, declaratively: between any two bus writes of a log
    there is a call that deasserts chip-select (the line is active low). *)
Definition cs_framed (t : list event) : Prop :=
  forall t1 a mid b t2,
    t = t1 ++ SpiWrite a :: mid ++ SpiWrite b :: t2 -> Cs 1 ∈ mid.

(** The same as a check that runs over the log; [pending] tells that a
    write has been seen since chip-select was last deasserted. *)
Fixpoint cs_check (pending : bool) (t : list event) : bool :=
  match t with
  | [] => true
  | SpiWrite _ :: t' => if pending then false else cs_check true t'
  | Cs v :: t' => cs_check (if decide (v = 1) then false else pending) t'
  | _ :: t' => cs_check pending t'
  end.

Fixpoint cs_pending (pending : bool) (t : list event) : bool :=
  match t with
  | [] => pending
  | SpiWrite _ :: t' => cs_pending true t'
  | Cs v :: t' => cs_pending (if decide (v = 1) then false else pending) t'
  | _ :: t' => cs_pending pending t'
  end.

(** The pixels a write-memory payload decodes to: each pair of wire bytes
    read back through [wire_decode]. *)
Fixpoint decode_line (p : list byte) : list Z :=
  match p with
  | b0 :: b1 :: p' => wire_decode (Z_of_byte b0) (Z_of_byte b1) :: decode_line p'
  | _ => []
  end.

(** ** The events of a run in closed form *)

(** What [_lcopy] leaves in a destination of exactly two bytes per pixel. *)
Definition wire_pixel (sc : byte) : list byte :=
  [byte_of_Z (blue_green (Z_of_byte sc)); byte_of_Z (red (Z_of_byte sc))].

Definition encode_line (source : list byte) (n : nat) : list byte :=
  flat_map wire_pixel (take n source).

Definition wcmd_events (buf : list byte) : list event :=
  [Dc 0; Cs 0; SpiWrite buf; Cs 1].

Definition wcd_events (c d : list byte) : list event :=
  [Dc 0; Cs 0; SpiWrite c; Cs 1; Dc 1; Cs 0; SpiWrite d; Cs 1].

Definition caset_payload : list byte := to_bytes_big (Z.shiftl 3 16 + 160) 4.

Definition raset_payload (row : Z) : list byte :=
  to_bytes_big (Z.shiftl (row + 2) 16 + row + 3) 4.

Definition scanline_events (buf : list byte) (wd start row : Z) : list event :=
  wcd_events CASET caset_payload ++
  wcd_events RASET (raset_payload row) ++
  wcd_events RAMWR (encode_line (drop (Z.to_nat start) buf) (Z.to_nat wd)).

Fixpoint frame_events (buf : list byte) (wd : Z) (k : nat) (start row : Z)
  : list event :=
  match k with
  | O => []
  | S k' =>
      scanline_events buf wd start row ++
      frame_events buf wd k' (start + wd) (row - 1)
  end.

(** The rows addressed and the buffer offsets read by [k] iterations of
    the loop, and the transactions the iterations make. *)
Fixpoint rows (k : nat) (row : Z) : list Z :=
  match k with
  | O => []
  | S k' => row :: rows k' (row - 1)
  end.

Fixpoint starts (k : nat) (start wd : Z) : list Z :=
  match k with
  | O => []
  | S k' => start :: starts k' (start + wd) wd
  end.

Fixpoint frame_commands (buf : list byte) (wd : Z) (k : nat) (start row : Z)
  : list (list byte * list (list byte)) :=
  match k with
  | O => []
  | S k' =>
      (CASET, [caset_payload]) ::
      (RASET, [raset_payload row]) ::
      (RAMWR, [encode_line (drop (Z.to_nat start) buf) (Z.to_nat wd)]) ::
      frame_commands buf wd k' (start + wd) (row - 1)
  end.

Definition hwreset_events : list event :=
  [Dc 0; Rst 1; SleepMs 1; Rst 0; SleepMs 1; Rst 1; SleepMs 1].

(** The events of [_init], call by call. *)
Definition init_events : list event :=
  hwreset_events ++
  wcmd_events [x01] ++ [SleepMs 150] ++
  wcmd_events [x11] ++ [SleepMs 256] ++
  wcd_events [xb1] [x01; x2c; x2d] ++
  wcd_events [xb2] [x01; x2c; x2d] ++
  wcd_events [xb3] [x01; x2c; x2d; x01; x2c; x2d] ++
  wcd_events [xb4] [x07] ++
  wcd_events [xc0] [xa2; x02; x84] ++
  wcd_events [xc1] [xc5] ++
  wcd_events [xc2] [x0a; x00] ++
  wcd_events [xc3] [x8a; x2a] ++
  wcd_events [xc4] [x8a; xee] ++
  wcd_events [xc5] [x0e] ++
  wcmd_events [x20] ++
  wcd_events [x36] [xe0] ++
  wcd_events [x3a] [x05] ++
  wcd_events [xe0] [x02; x1c; x07; x12; x37; x32; x29; x2d;
                    x29; x25; x2b; x39; x00; x01; x03; x10] ++
  wcd_events [xe1] [x03; x1d; x07; x06; x2e; x2c; x29; x2d;
                    x2e; x2e; x37; x3f; x00; x00; x02; x10] ++
  wcmd_events [x13] ++ [SleepMs 10] ++
  wcmd_events [x29] ++ [SleepMs 100].

(** A list of events played against a transport that has seen [k] writes:
    how the run ends and what reaches the log. A write that raises is the
    last event. *)
Fixpoint replay (spi : nat -> bool) (k : nat) (evs : list event)
  : result unit * list event :=
  match evs with
  | [] => (Ok tt, [])
  | SpiWrite buf :: r =>
      if spi k then (Raised, [SpiWrite buf])
      else let '(res, t) := replay spi (S k) r in (res, SpiWrite buf :: t)
  | e :: r => let '(res, t) := replay spi k r in (res, e :: t)
  end.

(** The events up to and including the write that comes after [n] others. *)
Fixpoint upto_write (n : nat) (evs : list event) : list event :=
  match evs with
  | [] => []
  | SpiWrite buf :: r =>
      match n with
      | O => [SpiWrite buf]
      | S n' => SpiWrite buf :: upto_write n' r
      end
  | e :: r => e :: upto_write n r
  end.

Definition logs (t : list event) (s : ST7735R) : ST7735R :=
  mkST7735R (_spi s) (height s) (width s) (buffer s) (_linebuf s)
            (wire s ++ t).

Definition run_events (evs : list event) : M unit := fun s =>
  let '(res, t) := replay (_spi s) (writes (wire s)) evs in (res, logs t s).

(** [m] does nothing but emit [evs], up to the first write that raises. *)
Definition emits (m : M unit) (evs : list event) : Prop :=
  forall s, m s = run_events evs s.

(** [m], started in [s], emits [evs] up to the first write that raises,
    and changes nothing else but the contents of the line buffer. *)
Definition plays (m : M unit) (evs : list event) (s : ST7735R) : Prop :=
  exists lb,
    length lb = length (_linebuf s) /\
    m s = ((replay (_spi s) (writes (wire s)) evs).1,
           set_linebuf lb (logs (replay (_spi s) (writes (wire s)) evs).2 s)).

(** [m] leaves the pixel buffer, the dimensions and the transport of the
    device as they were, however it ends. *)
Definition keeps_frame (m : M unit) : Prop :=
  forall s,
    buffer (m s).2 = buffer s /\
    height (m s).2 = height s /\
    width (m s).2 = width s /\
    _spi (m s).2 = _spi s.

(** Every bus write of a log comes right after the call that asserts
    chip-select. *)
Definition writes_selected (t : list event) : Prop :=
  forall t1 buf t2, t = t1 ++ SpiWrite buf :: t2 -> exists t0, t1 = t0 ++ [Cs 0].

(** The same as a check; [sel] tells that the event before was [Cs 0]. *)
Fixpoint sel_check (sel : bool) (t : list event) : bool :=
  match t with
  | [] => true
  | SpiWrite _ :: t' => sel && sel_check false t'
  | Cs v :: t' => sel_check (if decide (v = 0) then true else false) t'
  | _ :: t' => sel_check false t'
  end.

(** The calls a refresh is made of: the data/command line, chip-select and
    the bus. *)
Definition refresh_event (e : event) : bool :=
  match e with
  | Dc _ | Cs _ | SpiWrite _ => true
  | Rst _ | SleepMs _ => false
  end.

(** The time a log spends in [sleep_ms], in milliseconds. *)
Fixpoint slept (t : list event) : Z :=
  match t with
  | [] => 0
  | SleepMs ms :: t' => ms + slept t'
  | _ :: t' => slept t'
  end.

(** ** Sample devices *)

(** Three rows of two pixels, on a transport that accepts every write. *)
Definition panel_3x2 : ST7735R :=
  mkST7735R (fun _ => false) 3 2
            [xe0; x1f; x00; xff; x03; x1c] [x00; x00; x00; x00] [].

(** Two rows of two pixels; the top-left pixel is [rgb(255, 0, 0)], the
    others are 0. *)
Definition panel_2x2_red : ST7735R :=
  mkST7735R (fun _ => false) 2 2
            [byte_of_Z (rgb 255 0 0); x00; x00; x00] [x00; x00; x00; x00] [].

(** A device of 65534 rows of one pixel. *)
Definition panel_tall : ST7735R :=
  mkST7735R (fun _ => false) 65534 1
            (replicate (Z.to_nat 65534) x00) [x00; x00] [].

(** Four rows of two pixels, on a transport that raises on its 18th
    write. *)
Definition panel_4x2_failing : ST7735R :=
  mkST7735R (fun k => Nat.eqb k 17) 4 2
            [xe0; x1f; x00; xff; x03; x1c; x80; x01] [x00; x00; x00; x00] [].

(** Two source bytes and six stale destination bytes for the 12-bit
    codec. *)
Definition pair_source : list byte := [xe0; x1f; x55; xaa].

(** Three rows of two pixels on a transport that raises on its first
    write. *)
Definition panel_3x2_dead : ST7735R :=
  mkST7735R (fun _ => true) 3 2
            [xe0; x1f; x00; xff; x03; x1c] [x00; x00; x00; x00] [].

(** * Properties *)

(** ** Bytes and the codec on one pixel *)

Lemma Z_of_byte_range (b : byte) : 0 <= Z_of_byte b < 256.
Proof.
  unfold Z_of_byte. pose proof (Byte.to_N_bounded b). lia.
Qed.

Lemma byte_of_Z_of_byte (b : byte) : byte_of_Z (Z_of_byte b) = b.
Proof. destruct b; reflexivity. Qed.

Lemma Z_of_byte_of_Z (z : Z) : 0 <= z < 256 -> Z_of_byte (byte_of_Z z) = z.
Proof.
  intros Hz. unfold byte_of_Z, Z_of_byte.
  change 0xff with (Z.ones 8). rewrite Z.land_ones by lia.
  rewrite Z.mod_small by (change (2 ^ 8) with 256; lia).
  destruct (Byte.of_N (Z.to_N z)) as [b|] eqn:E.
  - apply Byte.to_of_N in E. lia.
  - apply Byte.of_N_None_iff in E. lia.
Qed.

Lemma blue_green_byte (c : byte) :
  Z_of_byte (byte_of_Z (blue_green (Z_of_byte c))) = blue_green (Z_of_byte c).
Proof. destruct c; reflexivity. Qed.

Lemma red_byte (c : byte) :
  Z_of_byte (byte_of_Z (red (Z_of_byte c))) = red (Z_of_byte c).
Proof. destruct c; reflexivity. Qed.

(** ** [_lcopy] in closed form *)

Lemma encode_line_S (source : list byte) (x k : nat) (sc : byte) :
  source !! x = Some sc ->
  encode_line (drop x source) (S k)
  = wire_pixel sc ++ encode_line (drop (S x) source) k.
Proof.
  intros Hx. unfold encode_line. rewrite (drop_S _ _ _ Hx). reflexivity.
Qed.

Lemma length_encode_line (source : list byte) (n : nat) :
  (n <= length source)%nat -> length (encode_line source n) = (2 * n)%nat.
Proof.
  unfold encode_line. revert source.
  induction n as [|n IH]; intros [|c source] Hn; simpl in *; try lia.
  rewrite IH by lia. lia.
Qed.

Lemma lcopy_loop_spec (k : nat) :
  forall (x n : nat) (dest source : list byte),
    (x + k <= length source)%nat ->
    (n + 2 * k <= length dest)%nat ->
    _lcopy_loop k x n dest source
    = Some (take n dest ++ encode_line (drop x source) k
            ++ drop (n + 2 * k) dest).
Proof.
  induction k as [|k IH]; intros x n dest source Hs Hd.
  - cbn [_lcopy_loop]. unfold encode_line. rewrite take_0. cbn.
    rewrite Nat.add_0_r, take_drop. reflexivity.
  - destruct (lookup_lt_is_Some_2 source x ltac:(lia)) as [sc Hsc].
    cbn [_lcopy_loop]. unfold ptr8_load, ptr8_store. rewrite Hsc.
    cbn [fmap option_fmap option_map mbind option_bind].
    destruct (decide (n < length dest)%nat) as [_|Hn]; [|lia].
    cbn [mbind option_bind]. rewrite length_insert.
    destruct (decide (n + 1 < length dest)%nat) as [_|Hn]; [|lia].
    cbn [mbind option_bind].
    fold (blue_green (Z_of_byte sc)). fold (red (Z_of_byte sc)).
    rewrite IH by (rewrite ?length_insert; lia).
    rewrite (encode_line_S _ _ _ _ Hsc). f_equal.
    replace (x + 1)%nat with (S x) by lia.
    replace (n + 1 + 1 + 2 * k)%nat with (n + 2 * S k)%nat by lia.
    rewrite !drop_insert_lt by lia.
    replace (n + 1 + 1)%nat with (S (S n)) by lia.
    replace (n + 1)%nat with (S n) by lia.
    erewrite take_S_r; last first.
    { apply list_lookup_insert_eq. rewrite length_insert. lia. }
    erewrite take_S_r; last first.
    { rewrite list_lookup_insert_ne by lia.
      apply list_lookup_insert_eq. lia. }
    rewrite !take_insert_ge by lia.
    unfold wire_pixel. rewrite <- !app_assoc. reflexivity.
Qed.

Lemma lcopy_spec (dest source : list byte) (n : nat) :
  (n <= length source)%nat ->
  (2 * n <= length dest)%nat ->
  _lcopy dest source (Z.of_nat n)
  = Some (encode_line source n ++ drop (2 * n) dest).
Proof.
  intros Hs Hd. unfold _lcopy. rewrite Nat2Z.id.
  rewrite lcopy_loop_spec by lia. reflexivity.
Qed.

(** ** Replaying events against the transport *)

Lemma writes_app (t1 t2 : list event) :
  writes (t1 ++ t2) = (writes t1 + writes t2)%nat.
Proof.
  induction t1 as [|[] t1 IH]; simpl; auto.
Qed.

Lemma replay_ok spi k evs r t :
  replay spi k evs = (r, t) -> r = Ok tt -> t = evs.
Proof.
  revert k r t. induction evs as [|e evs IH]; intros k r t.
  - simpl. congruence.
  - destruct e; simpl;
      try (destruct (replay spi k evs) as [r' t'] eqn:E;
           intros [= <- <-] ->; f_equal; eapply IH; eauto).
    destruct (spi k); [congruence|].
    destruct (replay spi (S k) evs) as [r' t'] eqn:E.
    intros [= <- <-] ->. f_equal. eapply IH; eauto.
Qed.

Lemma replay_app spi k e1 e2 :
  replay spi k (e1 ++ e2)
  = match replay spi k e1 with
    | (Ok _, t1) =>
        let '(r, t2) := replay spi (k + writes e1) e2 in (r, t1 ++ t2)
    | other => other
    end.
Proof.
  revert k. induction e1 as [|e e1 IH]; intros k.
  - simpl. rewrite Nat.add_0_r. by destruct (replay spi k e2).
  - destruct e; simpl;
      try (rewrite IH; destruct (replay spi k e1) as [[[]| | |] t1];
           [destruct (replay spi (k + writes e1) e2)|..]; reflexivity).
    destruct (spi k); [reflexivity|].
    rewrite IH. replace (k + S (writes e1))%nat with (S k + writes e1)%nat by lia.
    destruct (replay spi (S k) e1) as [[[]| | |] t1];
      [destruct (replay spi (S k + writes e1) e2)|..]; reflexivity.
Qed.

Lemma replay_prefix spi k evs : (replay spi k evs).2 `prefix_of` evs.
Proof.
  revert k. induction evs as [|e evs IH]; intros k; [done|].
  destruct e; simpl;
    try (specialize (IH k); destruct (replay spi k evs);
         by apply prefix_cons).
  destruct (spi k).
  - simpl. apply prefix_cons, prefix_nil.
  - specialize (IH (S k)). destruct (replay spi (S k) evs).
    by apply prefix_cons.
Qed.

Lemma replay_reliable spi k evs :
  (forall j, spi j = false) -> replay spi k evs = (Ok tt, evs).
Proof.
  intros Hspi. revert k.
  induction evs as [|e evs IH]; intros k; [done|].
  destruct e; simpl; rewrite ?Hspi, IH; reflexivity.
Qed.

Lemma replay_first_failure spi evs :
  forall k n,
    (forall j, (j < n)%nat -> spi (k + j)%nat = false) ->
    spi (k + n)%nat = true ->
    (n < writes evs)%nat ->
    replay spi k evs = (Raised, upto_write n evs).
Proof.
  induction evs as [|e evs IH]; intros k n Hok Hfail Hn; simpl in *; [lia|].
  destruct e; try (rewrite (IH k n) by auto; reflexivity).
  destruct n as [|n].
  - rewrite Nat.add_0_r in Hfail. by rewrite Hfail.
  - rewrite <- (Nat.add_0_r k) at 1. rewrite Hok by lia.
    rewrite (IH (S k) n); [reflexivity| | |lia].
    + intros j Hj. replace (S k + j)%nat with (k + S j)%nat by lia.
      apply Hok. lia.
    + by replace (S k + n)%nat with (k + S n)%nat by lia.
Qed.

(** ** The framing helpers as event lists *)

Lemma logs_logs t1 t2 s : logs t2 (logs t1 s) = logs (t1 ++ t2) s.
Proof. unfold logs. simpl. by rewrite app_assoc. Qed.

Lemma emits_bind (m1 m2 : M unit) e1 e2 :
  emits m1 e1 -> emits m2 e2 -> emits (m1;; m2) (e1 ++ e2).
Proof.
  intros H1 H2 s. unfold mbind, M_bind. rewrite H1.
  unfold run_events. rewrite replay_app.
  destruct (replay (_spi s) (writes (wire s)) e1) as [[[]| | |] t1] eqn:E1;
    try reflexivity.
  apply replay_ok in E1 as ->; [|done].
  rewrite H2. unfold run_events. simpl. rewrite writes_app.
  destruct (replay (_spi s) (writes (wire s) + writes e1) e2) as [r t2].
  by rewrite logs_logs.
Qed.

Lemma emits_dc v : emits (_dc v) [Dc v].
Proof. intros s. reflexivity. Qed.

Lemma emits_cs v : emits (_cs v) [Cs v].
Proof. intros s. reflexivity. Qed.

Lemma emits_rst v : emits (_rst v) [Rst v].
Proof. intros s. reflexivity. Qed.

Lemma emits_sleep_ms ms : emits (sleep_ms ms) [SleepMs ms].
Proof. intros s. reflexivity. Qed.

Lemma emits_spi_write buf : emits (spi_write buf) [SpiWrite buf].
Proof.
  intros s. unfold spi_write, run_events. simpl.
  by destruct (_spi s (writes (wire s))).
Qed.

Create HintDb emits.
#[local] Hint Resolve emits_dc emits_cs emits_rst emits_sleep_ms
  emits_spi_write : emits.

Lemma emits_bind_cons (m1 m2 : M unit) e es :
  emits m1 [e] -> emits m2 es -> emits (m1;; m2) (e :: es).
Proof. apply (emits_bind m1 m2 [e] es). Qed.

Ltac emits_chain :=
  repeat first
    [ apply emits_bind; [solve [eauto with emits]|]
    | apply emits_bind_cons; [solve [eauto with emits]|] ];
  solve [eauto with emits].

Lemma emits_hwreset : emits _hwreset hwreset_events.
Proof. unfold _hwreset, hwreset_events. emits_chain. Qed.

Lemma emits_wcmd buf : emits (_wcmd buf) (wcmd_events buf).
Proof. unfold _wcmd, wcmd_events. emits_chain. Qed.

Lemma emits_wcd c d : emits (_wcd c d) (wcd_events c d).
Proof. unfold _wcd, wcd_events. emits_chain. Qed.

#[local] Hint Resolve emits_hwreset emits_wcmd emits_wcd : emits.

Lemma emits_init : emits _init init_events.
Proof. unfold _init, init_events. emits_chain. Qed.

(** ** The refresh loop as an event list *)

Lemma set_linebuf_id s : set_linebuf (_linebuf s) s = s.
Proof. by destruct s. Qed.

Lemma logs_nil s : logs [] s = s.
Proof. destruct s. unfold logs. simpl. by rewrite app_nil_r. Qed.

Lemma plays_bind (m1 m2 : M unit) e1 e2 s :
  m1 s = run_events e1 s ->
  plays m2 e2 (logs e1 s) ->
  plays (m1;; m2) (e1 ++ e2) s.
Proof.
  intros H1 H2. unfold plays, mbind, M_bind. rewrite H1.
  unfold run_events. rewrite replay_app.
  destruct (replay (_spi s) (writes (wire s)) e1) as [[[]| | |] t1] eqn:E1;
    try (exists (_linebuf s); split; [done|]; by destruct s).
  apply replay_ok in E1 as ->; [|done].
  destruct H2 as (lb & Hlb & ->). exists lb. split; [done|].
  simpl. rewrite writes_app.
  destruct (replay (_spi s) (writes (wire s) + writes e1) e2) as [r t2].
  simpl. by rewrite logs_logs.
Qed.

Lemma plays_lcopy_line (m : M unit) evs s start wd lb :
  lcopy_line start wd s = (Ok tt, set_linebuf lb s) ->
  length lb = length (_linebuf s) ->
  plays m evs (set_linebuf lb s) ->
  plays (lcopy_line start wd;; m) evs s.
Proof.
  intros H1 Hlen (lb' & Hlb' & H2). unfold plays, mbind, M_bind.
  rewrite H1, H2. exists lb'. split; [simpl in *; congruence|reflexivity].
Qed.

Lemma lcopy_line_ok s start wd :
  0 <= wd ->
  length (_linebuf s) = Z.to_nat (wd * 2) ->
  (Z.to_nat start + Z.to_nat wd <= length (buffer s))%nat ->
  lcopy_line start wd s
  = (Ok tt, set_linebuf
              (encode_line (drop (Z.to_nat start) (buffer s)) (Z.to_nat wd)) s).
Proof.
  intros Hwd Hlb Hbuf. unfold lcopy_line.
  rewrite <- (Z2Nat.id wd) at 1 by lia.
  rewrite lcopy_spec by (rewrite ?length_drop; lia).
  rewrite (drop_ge (_linebuf s)) by lia. by rewrite app_nil_r.
Qed.

Lemma show_loop_plays (fuel : nat) :
  forall (wd start row : Z) (s : ST7735R),
    fuel = Z.to_nat (row + 1) ->
    0 <= wd -> 0 <= start -> -1 <= row ->
    length (_linebuf s) = Z.to_nat (wd * 2) ->
    (Z.to_nat (start + (row + 1) * wd) <= length (buffer s))%nat ->
    plays (show_loop fuel wd start row)
          (frame_events (buffer s) wd fuel start row) s.
Proof.
  induction fuel as [|fuel IH]; intros wd start row s Hf Hwd Hst Hrow Hlb Hbuf.
  - simpl. destruct (decide (row >= 0)) as [?|_]; [lia|].
    exists (_linebuf s). split; [done|]. simpl.
    by rewrite logs_nil, set_linebuf_id.
  - cbn [show_loop frame_events].
    destruct (decide (row >= 0)) as [Hr|?]; [|lia].
    unfold scanline_events. rewrite <- !app_assoc.
    assert (Z.to_nat start + Z.to_nat wd <= length (buffer s))%nat by nia.
    eapply plays_lcopy_line.
    { by apply lcopy_line_ok. }
    { rewrite length_encode_line by (rewrite length_drop; lia). lia. }
    apply plays_bind; [apply emits_wcd|].
    apply plays_bind; [apply emits_wcd|].
    apply plays_bind; [apply emits_wcd|].
    match goal with
    | |- plays _ _ ?s' => specialize (IH wd (start + wd) (row - 1) s')
    end.
    cbn [buffer _linebuf logs set_linebuf] in IH.
    apply IH; try lia.
    rewrite length_encode_line by (rewrite length_drop; lia). lia.
Qed.

Lemma show_plays (s : ST7735R) :
  wf s ->
  plays show
        (frame_events (buffer s) (width s) (Z.to_nat (height s)) 0
                      (height s - 1)) s.
Proof.
  intros (Hh & Hw & Hbuf & Hlb). unfold show.
  replace (Z.to_nat (height s)) with (Z.to_nat (height s - 1 + 1))
    by (f_equal; lia).
  destruct (show_loop_plays (Z.to_nat (height s - 1 + 1)) (width s) 0
              (height s - 1) s) as (lb & Hlen & Hrun); try done; try lia.
  exists lb. split; [done|]. exact Hrun.
Qed.

(** ** The codec *)

Lemma encode_line_lookup (source : list byte) :
  forall (n i : nat) (c : byte),
    (i < n)%nat -> source !! i = Some c ->
    encode_line source n !! (2 * i)%nat
    = Some (byte_of_Z (blue_green (Z_of_byte c))) /\
    encode_line source n !! (2 * i + 1)%nat
    = Some (byte_of_Z (red (Z_of_byte c))).
Proof.
  unfold encode_line.
  induction source as [|sc source IH]; intros n i c Hi Hc; [done|].
  destruct n as [|n]; [lia|]. destruct i as [|i].
  - injection Hc as ->. by split.
  - replace (2 * S i)%nat with (S (S (2 * i))) by lia.
    apply (IH n i c); [lia|done].
Qed.

Lemma pixel_bytes (c : byte) :
  let z := Z_of_byte c in
  let b0 := Z_of_byte (byte_of_Z (blue_green z)) in
  let b1 := Z_of_byte (byte_of_Z (red z)) in
  b0 = Z.lor (Z.shiftl (Z.land z 3) 6) (Z.shiftr (Z.land z 0x1c) 2) /\
  b1 = Z.shiftr (Z.land z 0xe0) 3 /\
  b0 = Z.lor (Z.shiftl (blue_field z) 6) (green_field z) /\
  b1 = Z.shiftl (red_field z) 2.
Proof. destruct c; repeat split. Qed.

(** C1. [_lcopy] over a scanline of [n] pixels, with a source of at least
    [n] bytes and a destination of at least [2 n]: it returns, and for every
    pixel [i < n] with source byte [c] the destination holds at index [2 i]
    the byte [((c & 3) << 6) | ((c & 0x1c) >> 2)], that is the two blue bits
    in bits 7..6 and the three green bits in bits 2..0, and at index
    [2 i + 1] the byte [(c & 0xe0) >> 3], that is the three red bits in bits
    4..2. Nothing else of the destination changes: its length is kept, and
    so is every byte from index [2 n] on. *)
Theorem lcopy_pixel_bytes (dest source : list byte) (n : nat) :
  (n <= length source)%nat ->
  (2 * n <= length dest)%nat ->
  exists dest',
    _lcopy dest source (Z.of_nat n) = Some dest' /\
    length dest' = length dest /\
    (forall (i : nat) (sc : byte),
        (i < n)%nat -> source !! i = Some sc ->
        exists b0 b1 : byte,
          dest' !! (2 * i)%nat = Some b0 /\
          dest' !! (2 * i + 1)%nat = Some b1 /\
          let c := Z_of_byte sc in
          Z_of_byte b0
          = Z.lor (Z.shiftl (Z.land c 3) 6) (Z.shiftr (Z.land c 0x1c) 2) /\
          Z_of_byte b1 = Z.shiftr (Z.land c 0xe0) 3 /\
          Z_of_byte b0 = Z.lor (Z.shiftl (blue_field c) 6) (green_field c) /\
          Z_of_byte b1 = Z.shiftl (red_field c) 2) /\
    (forall j : nat, (2 * n <= j)%nat -> dest' !! j = dest !! j).
Proof.
  intros Hs Hd. eexists. split; [by apply lcopy_spec|].
  assert (Hlen : length (encode_line source n) = (2 * n)%nat)
    by by apply length_encode_line.
  split; [|split].
  - rewrite length_app, Hlen, length_drop. lia.
  - intros i sc Hi Hsc.
    destruct (encode_line_lookup source n i sc Hi Hsc) as [H0 H1].
    exists (byte_of_Z (blue_green (Z_of_byte sc))),
           (byte_of_Z (red (Z_of_byte sc))).
    rewrite !lookup_app_l by lia.
    split; [done|]. split; [done|]. apply pixel_bytes.
  - intros j Hj. rewrite lookup_app_r by lia.
    rewrite lookup_drop, Hlen. f_equal. lia.
Qed.

Lemma lcopy_pixel_bytes_witness :
  exists dest',
    _lcopy [x00; x00; x00; x00; xaa] [xe0; x1f; x55] 2 = Some dest' /\
    dest' !! 2%nat = Some xc7 /\ dest' !! 4%nat = Some xaa.
Proof.
  destruct (lcopy_pixel_bytes [x00; x00; x00; x00; xaa] [xe0; x1f; x55] 2)
    as (dest' & Hrun & _); [simpl; lia | simpl; lia |].
  exists dest'. split; [exact Hrun|].
  vm_compute in Hrun. injection Hrun as <-. by split.
Defined.

(** C2. The two wire bytes of a pixel are a lossless encoding of the
    sub-fields of its packed colour [c]: whatever the destination held,
    [_lcopy] leaves two bytes from which [wire_red], [wire_green] and
    [wire_blue] read back the three red bits, the three green bits and the
    two blue bits of [c], and [wire_decode] the whole of [c]; bits 5..3 of
    the first byte and bits 7..5 and 1..0 of the second are zero. *)
Theorem wire_bytes_lossless (sc d0 d1 : byte) :
  exists b0 b1 : byte,
    _lcopy [d0; d1] [sc] 1 = Some [b0; b1] /\
    let c := Z_of_byte sc in
    wire_red (Z_of_byte b0) (Z_of_byte b1) = red_field c /\
    wire_green (Z_of_byte b0) (Z_of_byte b1) = green_field c /\
    wire_blue (Z_of_byte b0) (Z_of_byte b1) = blue_field c /\
    wire_decode (Z_of_byte b0) (Z_of_byte b1) = c /\
    Z.land (Z_of_byte b0) 0x38 = 0 /\
    Z.land (Z_of_byte b1) 0xe3 = 0.
Proof.
  exists (byte_of_Z (blue_green (Z_of_byte sc))),
         (byte_of_Z (red (Z_of_byte sc))).
  split; [reflexivity|]. destruct sc; repeat split.
Qed.

Lemma Z_byte_cases (z : Z) : 0 <= z < 256 -> exists c : byte, z = Z_of_byte c.
Proof.
  intros Hz. exists (byte_of_Z z). by rewrite Z_of_byte_of_Z.
Qed.

Lemma rgb_red_part (r : Z) :
  0 <= r < 256 -> Z.land r 0xe0 = Z.shiftl (Z.shiftr r 5) 5.
Proof. intros [c ->]%Z_byte_cases. destruct c; reflexivity. Qed.

Lemma rgb_green_part (g : Z) :
  0 <= g < 256 -> Z.land (Z.shiftr g 3) 0x1c = Z.shiftl (Z.shiftr g 5) 2.
Proof. intros [c ->]%Z_byte_cases. destruct c; reflexivity. Qed.

Lemma shiftr_range (z : Z) (n : Z) :
  0 <= n -> 0 <= z < 256 -> 0 <= Z.shiftr z n < 2 ^ (8 - n) \/ 8 < n.
Proof.
  intros Hn Hz. destruct (decide (8 < n)); [by right|left].
  rewrite Z.shiftr_div_pow2 by lia. split.
  - apply Z.div_pos; lia.
  - apply Z.div_lt_upper_bound; [lia|].
    rewrite <- Z.pow_add_r by lia.
    replace (n + (8 - n)) with 8 by lia. lia.
Qed.

(** The packed colour with sub-fields [R], [G], [B], and what the codec
    makes of it. *)
Lemma packed_fields (R G B : Z) :
  0 <= R < 8 -> 0 <= G < 8 -> 0 <= B < 4 ->
  let c := Z.lor (Z.lor (Z.shiftl R 5) (Z.shiftl G 2)) B in
  0 <= c < 256 /\
  Z.land (Z.shiftl R 5) (Z.shiftl G 2) = 0 /\
  Z.land (Z.shiftl R 5) B = 0 /\
  Z.land (Z.shiftl G 2) B = 0 /\
  red_field c = R /\ green_field c = G /\ blue_field c = B /\
  wire_red (blue_green c) (red c) = R /\
  wire_green (blue_green c) (red c) = G /\
  wire_blue (blue_green c) (red c) = B.
Proof.
  intros HR HG HB.
  assert (R = 0 \/ R = 1 \/ R = 2 \/ R = 3 \/ R = 4 \/ R = 5 \/ R = 6 \/ R = 7)
    as HR' by lia.
  assert (G = 0 \/ G = 1 \/ G = 2 \/ G = 3 \/ G = 4 \/ G = 5 \/ G = 6 \/ G = 7)
    as HG' by lia.
  assert (B = 0 \/ B = 1 \/ B = 2 \/ B = 3) as HB' by lia.
  clear HR HG HB.
  repeat (destruct HR' as [->|HR']); try subst R;
    repeat (destruct HG' as [->|HG']); try subst G;
    repeat (destruct HB' as [->|HB']); try subst B;
    vm_compute; repeat split; congruence.
Qed.

(** C10. The colour encoder and the codec compose without loss at the
    precision of the packed format: for [r], [g], [b] in 0..255,
    [rgb r g b] is an 8-bit value, its three parts have no bit in common,
    its sub-fields are the top three bits of [r], the top three bits of [g]
    and the top two bits of [b], and the same three values are read back
    from the two wire bytes that [_lcopy] emits for it. *)
Theorem rgb_wire_roundtrip (r g b : Z) (d0 d1 : byte) :
  0 <= r < 256 -> 0 <= g < 256 -> 0 <= b < 256 ->
  0 <= rgb r g b < 256 /\
  Z.land (Z.land r 0xe0) (Z.land (Z.shiftr g 3) 0x1c) = 0 /\
  Z.land (Z.land r 0xe0) (Z.shiftr b 6) = 0 /\
  Z.land (Z.land (Z.shiftr g 3) 0x1c) (Z.shiftr b 6) = 0 /\
  red_field (rgb r g b) = Z.shiftr r 5 /\
  green_field (rgb r g b) = Z.shiftr g 5 /\
  blue_field (rgb r g b) = Z.shiftr b 6 /\
  exists b0 b1 : byte,
    _lcopy [d0; d1] [byte_of_Z (rgb r g b)] 1 = Some [b0; b1] /\
    wire_red (Z_of_byte b0) (Z_of_byte b1) = Z.shiftr r 5 /\
    wire_green (Z_of_byte b0) (Z_of_byte b1) = Z.shiftr g 5 /\
    wire_blue (Z_of_byte b0) (Z_of_byte b1) = Z.shiftr b 6.
Proof.
  intros Hr Hg Hb. unfold rgb.
  rewrite rgb_red_part, rgb_green_part by done.
  destruct (shiftr_range r 5) as [HR|]; [lia|done| |lia].
  destruct (shiftr_range g 5) as [HG|]; [lia|done| |lia].
  destruct (shiftr_range b 6) as [HB|]; [lia|done| |lia].
  change (2 ^ (8 - 5)) with 8 in *. change (2 ^ (8 - 6)) with 4 in *.
  destruct (packed_fields _ _ _ HR HG HB)
    as (Hc & H1 & H2 & H3 & H4 & H5 & H6 & H7 & H8 & H9).
  repeat (split; [done|]).
  lazymatch goal with
  | |- context [_lcopy _ [byte_of_Z ?c] _] =>
      exists (byte_of_Z (blue_green (Z_of_byte (byte_of_Z c)))),
             (byte_of_Z (red (Z_of_byte (byte_of_Z c))))
  end.
  split; [reflexivity|].
  rewrite (Z_of_byte_of_Z _ Hc).
  destruct (Z_byte_cases _ Hc) as [c Ec]. rewrite Ec in *.
  by rewrite blue_green_byte, red_byte.
Qed.

Lemma rgb_wire_roundtrip_witness :
  rgb 255 130 77 = 0xf1 /\
  exists b0 b1 : byte,
    _lcopy [x00; x00] [byte_of_Z (rgb 255 130 77)] 1 = Some [b0; b1] /\
    wire_red (Z_of_byte b0) (Z_of_byte b1) = 7 /\
    wire_green (Z_of_byte b0) (Z_of_byte b1) = 4 /\
    wire_blue (Z_of_byte b0) (Z_of_byte b1) = 1.
Proof.
  split; [reflexivity|].
  apply (rgb_wire_roundtrip 255 130 77 x00 x00); lia.
Defined.

(** ** Reading the log of a frame *)

Lemma data_run_frame dc buf wd k start row :
  data_run (bus_writes dc (frame_events buf wd k start row)) = [].
Proof. by destruct k. Qed.

Lemma transactions_frame buf wd k :
  forall dc start row,
    transactions (bus_writes dc (frame_events buf wd k start row))
    = frame_commands buf wd k start row.
Proof.
  induction k as [|k IH]; intros dc start row; [done|].
  cbn [frame_events frame_commands]. unfold scanline_events.
  rewrite <- !app_assoc. cbn -[frame_events].
  by rewrite data_run_frame, IH.
Qed.

Lemma commands_frame buf wd k start row :
  commands (frame_events buf wd k start row)
  = frame_commands buf wd k start row.
Proof. apply transactions_frame. Qed.

Lemma issued_caset_frame buf wd k :
  forall start row,
    issued CASET (frame_events buf wd k start row)
    = replicate k (CASET, [caset_payload]).
Proof.
  unfold issued. setoid_rewrite commands_frame.
  induction k as [|k IH]; intros start row; [done|].
  cbn [frame_commands replicate].
  rewrite filter_cons_True by done.
  rewrite filter_cons_False by done.
  rewrite filter_cons_False by done.
  by rewrite IH.
Qed.

Lemma issued_raset_frame buf wd k :
  forall start row,
    issued RASET (frame_events buf wd k start row)
    = map (fun r => (RASET, [raset_payload r])) (rows k row).
Proof.
  unfold issued. setoid_rewrite commands_frame.
  induction k as [|k IH]; intros start row; [done|].
  cbn [frame_commands rows map].
  rewrite filter_cons_False by done.
  rewrite filter_cons_True by done.
  rewrite filter_cons_False by done.
  by rewrite IH.
Qed.

Lemma issued_ramwr_frame buf wd k :
  forall start row,
    issued RAMWR (frame_events buf wd k start row)
    = map (fun st => (RAMWR, [encode_line (drop (Z.to_nat st) buf)
                                          (Z.to_nat wd)]))
          (starts k start wd).
Proof.
  unfold issued. setoid_rewrite commands_frame.
  induction k as [|k IH]; intros start row; [done|].
  cbn [frame_commands starts map].
  rewrite filter_cons_False by done.
  rewrite filter_cons_False by done.
  rewrite filter_cons_True by done.
  by rewrite IH.
Qed.

Lemma rows_lookup k :
  forall row (i : nat), (i < k)%nat -> rows k row !! i = Some (row - Z.of_nat i).
Proof.
  induction k as [|k IH]; intros row i Hi; [lia|].
  destruct i as [|i]; simpl.
  - f_equal. lia.
  - rewrite IH by lia. f_equal. lia.
Qed.

Lemma starts_lookup k :
  forall start wd (i : nat),
    (i < k)%nat -> starts k start wd !! i = Some (start + Z.of_nat i * wd).
Proof.
  induction k as [|k IH]; intros start wd i Hi; [lia|].
  destruct i as [|i]; simpl.
  - f_equal. lia.
  - rewrite IH by lia. f_equal. lia.
Qed.

Lemma length_rows k row : length (rows k row) = k.
Proof. revert row. induction k; intros; simpl; auto. Qed.

Lemma length_starts k start wd : length (starts k start wd) = k.
Proof. revert start. induction k; intros; simpl; auto. Qed.

Lemma concat_singletons {A B} (f : A -> B) (l : list A) :
  concat (map (fun a => [f a]) l) = map f l.
Proof. induction l; simpl; congruence. Qed.

Lemma payloads_raset_frame buf wd k start row :
  payloads RASET (frame_events buf wd k start row)
  = map raset_payload (rows k row).
Proof.
  unfold payloads. rewrite issued_raset_frame, map_map. simpl.
  apply concat_singletons.
Qed.

(** ** A refresh on a transport that accepts every write *)

Lemma show_reliable (d : ST7735R) :
  wf d -> reliable d ->
  exists lb,
    length lb = length (_linebuf d) /\
    show d
    = (Ok tt,
       set_linebuf lb
         (logs (frame_events (buffer d) (width d) (Z.to_nat (height d)) 0
                             (height d - 1)) d)).
Proof.
  intros Hwf Hrel. destruct (show_plays d Hwf) as (lb & Hlen & Hrun).
  exists lb. split; [done|].
  by rewrite Hrun, replay_reliable.
Qed.

(** ** Four-byte big-endian payloads *)

Lemma Z_of_byte_of_Z_mod (z : Z) : Z_of_byte (byte_of_Z z) = z mod 256.
Proof.
  assert (byte_of_Z z = byte_of_Z (z mod 256)) as ->.
  { unfold byte_of_Z. change 0xff with (Z.ones 8).
    rewrite !Z.land_ones by lia. change (2 ^ 8) with 256.
    by rewrite Z.mod_mod by lia. }
  apply Z_of_byte_of_Z. apply Z.mod_pos_bound. lia.
Qed.

Lemma from_to_bytes_big_4 (v : Z) :
  0 <= v < 2 ^ 32 -> from_bytes_big (to_bytes_big v 4) = v.
Proof.
  intros Hv. unfold from_bytes_big. cbn [to_bytes_big fold_left].
  rewrite !Z_of_byte_of_Z_mod, !Z.shiftr_div_pow2 by lia.
  change (8 * Z.of_nat 3) with 24. change (8 * Z.of_nat 2) with 16.
  change (8 * Z.of_nat 1) with 8. change (8 * Z.of_nat 0) with 0.
  change (2 ^ 24) with 16777216. change (2 ^ 16) with 65536.
  change (2 ^ 8) with 256. change (2 ^ 0) with 1.
  change (2 ^ 32) with 4294967296 in Hv.
  Z.div_mod_to_equations. lia.
Qed.

Lemma land_shiftl16_low (a b : Z) :
  0 <= b < 2 ^ 16 -> Z.land (Z.shiftl a 16) b = 0.
Proof.
  intros Hb. apply Z.bits_inj'. intros n Hn.
  rewrite Z.land_spec, Z.bits_0.
  destruct (decide (n < 16)) as [Hlt|Hge].
  - by rewrite Z.shiftl_spec_low.
  - destruct (decide (b = 0)) as [->|Hb0].
    + by rewrite Z.bits_0, andb_false_r.
    + rewrite (Z.bits_above_log2 b n), andb_false_r; [done|lia|].
      apply Z.lt_le_trans with 16; [|lia].
      apply Z.log2_lt_pow2; lia.
Qed.

Lemma shiftl16_add_lor (a b : Z) :
  0 <= b < 2 ^ 16 -> Z.shiftl a 16 + b = Z.lor (Z.shiftl a 16) b.
Proof.
  intros Hb. pose proof (land_shiftl16_low a b Hb) as Hland.
  by rewrite Z.add_nocarry_lxor, Z.lxor_lor.
Qed.

Lemma raset_payload_lor (row : Z) :
  0 <= row < 65533 ->
  raset_payload row = to_bytes_big (Z.lor (Z.shiftl (row + 2) 16) (row + 3)) 4.
Proof.
  intros Hrow. unfold raset_payload.
  rewrite <- Z.add_assoc, shiftl16_add_lor; [done|].
  change (2 ^ 16) with 65536. lia.
Qed.

Lemma raset_value_range (row : Z) :
  0 <= row < 65533 ->
  0 <= Z.lor (Z.shiftl (row + 2) 16) (row + 3) < 2 ^ 32.
Proof.
  intros Hrow. rewrite <- shiftl16_add_lor by (change (2 ^ 16) with 65536; lia).
  rewrite Z.shiftl_mul_pow2 by lia.
  change (2 ^ 16) with 65536. change (2 ^ 32) with 4294967296. lia.
Qed.

(** C3. One refresh of a device of height [h], [1 <= h <= 65533], on a
    transport that accepts every write: [show] returns, there are [h]
    row-address-set payloads, and the one of the [i]-th scanline
    ([i = 0 .. h-1]) is the four-byte big-endian encoding of
    [(row_start << 16) | row_end] with [row_start = (h - 1 - i) + 2] and
    [row_end = row_start + 1]. So the first scanline is addressed to row
    [h - 1], each next one to the row below, and the last one to row 0. *)
Theorem show_row_addresses (d : ST7735R) :
  wf d -> reliable d ->
  1 <= height d <= 65533 ->
  exists s' t,
    show d = (Ok tt, s') /\
    wire s' = wire d ++ t /\
    length (payloads RASET t) = Z.to_nat (height d) /\
    forall i : nat,
      (i < Z.to_nat (height d))%nat ->
      let row_start := (height d - 1 - Z.of_nat i) + 2 in
      let row_end := row_start + 1 in
      exists p,
        payloads RASET t !! i = Some p /\
        p = to_bytes_big (Z.lor (Z.shiftl row_start 16) row_end) 4 /\
        from_bytes_big p = Z.lor (Z.shiftl row_start 16) row_end.
Proof.
  intros Hwf Hrel Hh. destruct (show_reliable d Hwf Hrel) as (lb & _ & Hrun).
  eexists _, _. split; [exact Hrun|]. split; [reflexivity|].
  rewrite payloads_raset_frame. split.
  - by rewrite length_map, length_rows.
  - intros i Hi row_start row_end. subst row_start row_end.
    eexists. rewrite list_lookup_fmap, rows_lookup by done. simpl.
    split; [reflexivity|].
    replace (height d - 1 - Z.of_nat i + 2 + 1)
      with (height d - 1 - Z.of_nat i + 3) by lia.
    rewrite raset_payload_lor by lia. split; [done|].
    apply from_to_bytes_big_4, raset_value_range. lia.
Qed.

Lemma panel_3x2_wf : wf panel_3x2.
Proof. repeat split; simpl; lia. Qed.

Lemma panel_3x2_reliable : reliable panel_3x2.
Proof. intros k. reflexivity. Qed.

Lemma show_row_addresses_witness :
  exists s' t,
    show panel_3x2 = (Ok tt, s') /\
    wire s' = wire panel_3x2 ++ t /\
    length (payloads RASET t) = 3%nat /\
    forall i : nat,
      (i < 3)%nat ->
      exists p,
        payloads RASET t !! i = Some p /\
        p = to_bytes_big
              (Z.lor (Z.shiftl (3 - 1 - Z.of_nat i + 2) 16)
                     (3 - 1 - Z.of_nat i + 2 + 1)) 4 /\
        from_bytes_big p
        = Z.lor (Z.shiftl (3 - 1 - Z.of_nat i + 2) 16)
                (3 - 1 - Z.of_nat i + 2 + 1).
Proof.
  apply (show_row_addresses panel_3x2 panel_3x2_wf panel_3x2_reliable).
  simpl. lia.
Defined.

Example show_panel_3x2_rasets :
  payloads RASET (wire (show panel_3x2).2)
  = [[x00; x04; x00; x05]; [x00; x03; x00; x04]; [x00; x02; x00; x03]].
Proof. reflexivity. Qed.

Lemma panel_tall_wf : wf panel_tall.
Proof.
  unfold wf, panel_tall. cbn [height width buffer _linebuf].
  split; [lia|]. split; [lia|]. split; [|reflexivity].
  rewrite length_replicate. f_equal.
Qed.

(** C3 does not hold for every height. At 65534 rows the first scanline is
    addressed to row 65533: the sum
    [((row + 2) << 16) + row + 3] is [2^32], whose four low-order bytes are
    zero, and not the encoding of [row_start = 65535], [row_end = 65536]. *)
Lemma show_row_address_overflow :
  ~ (exists s' t,
        show panel_tall = (Ok tt, s') /\
        wire s' = wire panel_tall ++ t /\
        let row_start := (height panel_tall - 1 - Z.of_nat 0) + 2 in
        let row_end := row_start + 1 in
        exists p,
          payloads RASET t !! 0%nat = Some p /\
          p = to_bytes_big (Z.lor (Z.shiftl row_start 16) row_end) 4).
Proof.
  intros (s' & t & Hrun & Hw & p & Hp & Henc).
  destruct (show_reliable panel_tall panel_tall_wf) as (lb & _ & Hrun');
    [intros k; reflexivity|].
  rewrite Hrun' in Hrun. apply (f_equal snd) in Hrun.
  cbn [snd] in Hrun. subst s'.
  cbn [wire set_linebuf logs] in Hw. apply app_inv_head in Hw. subst t.
  rewrite payloads_raset_frame, list_lookup_fmap in Hp.
  rewrite rows_lookup in Hp by (unfold panel_tall; cbn [height]; lia).
  unfold panel_tall in Hp, Henc.
  cbn [height fmap option_fmap option_map] in Hp, Henc.
  injection Hp as <-. vm_compute in Henc. discriminate Henc.
Qed.

Example raset_payload_65533 :
  raset_payload 65533 = [x00; x00; x00; x00] /\
  to_bytes_big (Z.lor (Z.shiftl 65535 16) 65536) 4 = [xff; xff; x00; x00].
Proof. by vm_compute. Qed.

(** ** Counting the commands of a refresh *)

Lemma ramwr_payload_length (d : ST7735R) (st : Z) (i : nat) :
  wf d ->
  (i < Z.to_nat (height d))%nat ->
  st = 0 + Z.of_nat i * width d ->
  Z.of_nat (length (encode_line (drop (Z.to_nat st) (buffer d))
                                (Z.to_nat (width d))))
  = 2 * width d.
Proof.
  intros (Hh & Hw & Hbuf & _) Hi ->.
  rewrite length_encode_line; [lia|].
  rewrite length_drop, Hbuf. nia.
Qed.

(** C4. One refresh of a device of height [h] and width [w], on a transport
    that accepts every write: [show] returns, having issued exactly [h]
    row-address-set commands (0x2b) and exactly [h] write-memory commands
    (0x2c), and every write-memory command carries one data payload, of
    exactly [2 w] bytes. *)
Theorem show_command_counts (d : ST7735R) :
  wf d -> reliable d ->
  exists s' t,
    show d = (Ok tt, s') /\
    wire s' = wire d ++ t /\
    Z.of_nat (length (issued RASET t)) = height d /\
    Z.of_nat (length (issued RAMWR t)) = height d /\
    Forall (fun tx => exists p,
                tx.2 = [p] /\ Z.of_nat (length p) = 2 * width d)
           (issued RAMWR t).
Proof.
  intros Hwf Hrel. destruct (show_reliable d Hwf Hrel) as (lb & _ & Hrun).
  eexists _, _. split; [exact Hrun|]. split; [reflexivity|].
  destruct Hwf as (Hh & Hw & Hbuf & Hlb).
  rewrite issued_raset_frame, issued_ramwr_frame.
  rewrite !length_map, length_rows, length_starts.
  split; [lia|]. split; [lia|].
  apply Forall_fmap, Forall_lookup_2. intros i st Hst.
  pose proof (lookup_lt_Some _ _ _ Hst) as Hi.
  rewrite length_starts in Hi. rewrite starts_lookup in Hst by done.
  injection Hst as <-. eexists. split; [reflexivity|].
  by apply (ramwr_payload_length d _ i).
Qed.

Lemma show_command_counts_witness :
  exists s' t,
    show panel_3x2 = (Ok tt, s') /\
    wire s' = wire panel_3x2 ++ t /\
    Z.of_nat (length (issued RASET t)) = 3 /\
    Z.of_nat (length (issued RAMWR t)) = 3 /\
    Forall (fun tx => exists p, tx.2 = [p] /\ Z.of_nat (length p) = 2 * 2)
           (issued RAMWR t).
Proof.
  exact (show_command_counts panel_3x2 panel_3x2_wf panel_3x2_reliable).
Defined.

Example show_panel_3x2_ramwr :
  payloads RAMWR (wire (show panel_3x2).2)
  = [[x00; x1c; xc7; x00]; [x00; x00; xc7; x1c]; [xc0; x00; x07; x00]].
Proof. reflexivity. Qed.

(** ** The column window *)

Lemma raset_payload_step (row : Z) :
  0 <= row -> raset_payload row <> raset_payload (row - 1).
Proof.
  intros Hrow Heq. unfold raset_payload in Heq.
  cbn [to_bytes_big] in Heq. injection Heq as _ _ _ Heq.
  apply (f_equal Z_of_byte) in Heq.
  rewrite !Z_of_byte_of_Z_mod in Heq. change (8 * Z.of_nat 0) with 0 in Heq.
  rewrite !Z.shiftr_0_r, !Z.shiftl_mul_pow2 in Heq by lia.
  change (2 ^ 16) with 65536 in Heq.
  revert Heq. Z.div_mod_to_equations. lia.
Qed.

(** C8. Within one refresh, on a transport that accepts every write, every
    column-address-set command (0x2a) carries the same payload, the four
    bytes 00 03 00 a0 that spell [(3 << 16) + 160] big-endian, whatever the
    scanline and whatever the pixel buffer holds; there is one such command
    per scanline. The row-address-set payload is what changes: those of two
    consecutive scanlines differ. *)
Theorem show_caset_fixed (d : ST7735R) :
  wf d -> reliable d ->
  exists s' t,
    show d = (Ok tt, s') /\
    wire s' = wire d ++ t /\
    Z.of_nat (length (issued CASET t)) = height d /\
    Forall (fun tx => tx.2 = [[x00; x03; x00; xa0]]) (issued CASET t) /\
    [x00; x03; x00; xa0] = to_bytes_big (Z.shiftl 3 16 + 160) 4 /\
    from_bytes_big [x00; x03; x00; xa0] = Z.shiftl 3 16 + 160 /\
    forall (i : nat) p q,
      payloads RASET t !! i = Some p ->
      payloads RASET t !! S i = Some q ->
      p <> q.
Proof.
  intros Hwf Hrel. destruct (show_reliable d Hwf Hrel) as (lb & _ & Hrun).
  eexists _, _. split; [exact Hrun|]. split; [reflexivity|].
  destruct Hwf as (Hh & Hw & Hbuf & Hlb).
  rewrite issued_caset_frame, payloads_raset_frame, length_replicate.
  split; [lia|]. split; [by apply Forall_replicate|].
  split; [reflexivity|]. split; [reflexivity|].
  intros i p q Hp Hq. rewrite list_lookup_fmap in Hp, Hq.
  pose proof (lookup_lt_is_Some_1 _ (S i)
                ltac:(eapply fmap_is_Some; eauto)) as Hi.
  rewrite length_rows in Hi.
  rewrite rows_lookup in Hp, Hq by lia. simpl in Hp, Hq.
  injection Hp as <-. injection Hq as <-.
  replace (height d - 1 - Z.of_nat (S i))
    with (height d - 1 - Z.of_nat i - 1) by lia.
  apply raset_payload_step. lia.
Qed.

Lemma show_caset_fixed_witness :
  exists s' t,
    show panel_3x2 = (Ok tt, s') /\
    wire s' = wire panel_3x2 ++ t /\
    Z.of_nat (length (issued CASET t)) = 3 /\
    Forall (fun tx => tx.2 = [[x00; x03; x00; xa0]]) (issued CASET t) /\
    [x00; x03; x00; xa0] = to_bytes_big (Z.shiftl 3 16 + 160) 4 /\
    from_bytes_big [x00; x03; x00; xa0] = Z.shiftl 3 16 + 160 /\
    forall (i : nat) p q,
      payloads RASET t !! i = Some p ->
      payloads RASET t !! S i = Some q ->
      p <> q.
Proof.
  exact (show_caset_fixed panel_3x2 panel_3x2_wf panel_3x2_reliable).
Defined.

(** ** The pixel buffer is only read *)

Lemma keeps_frame_bind (m1 m2 : M unit) :
  keeps_frame m1 -> keeps_frame m2 -> keeps_frame (m1;; m2).
Proof.
  intros H1 H2 s. unfold mbind, M_bind.
  specialize (H1 s). destruct (m1 s) as [[[]| | |] s1]; try exact H1.
  specialize (H2 s1). simpl in H1.
  destruct H1 as (<- & <- & <- & <-). exact H2.
Qed.

Lemma keeps_frame_emits (m : M unit) evs : emits m evs -> keeps_frame m.
Proof.
  intros Hm s. rewrite Hm. unfold run_events.
  by destruct (replay (_spi s) (writes (wire s)) evs).
Qed.

Lemma keeps_frame_lcopy_line start wd : keeps_frame (lcopy_line start wd).
Proof.
  intros s. unfold lcopy_line.
  by destruct (_lcopy (_linebuf s) (drop (Z.to_nat start) (buffer s)) wd).
Qed.

Lemma keeps_frame_show_loop fuel :
  forall wd start row, keeps_frame (show_loop fuel wd start row).
Proof.
  induction fuel as [|fuel IH]; intros wd start row; simpl;
    destruct (decide (row >= 0)); try (intros s; done).
  apply keeps_frame_bind; [apply keeps_frame_lcopy_line|].
  apply keeps_frame_bind; [eapply keeps_frame_emits, emits_wcd|].
  apply keeps_frame_bind; [eapply keeps_frame_emits, emits_wcd|].
  apply keeps_frame_bind; [|apply IH].
  intros s. eapply keeps_frame_emits, emits_wcd.
Qed.

(** C9. [show] never writes to the pixel buffer: whatever the buffer holds,
    whatever the transport does and however the call ends, the pixel
    buffer after the call is the one before it, byte for byte, and the
    [height] and [width] fields are unchanged as well. The codec writes
    into [_linebuf] only. *)
Theorem show_keeps_buffer (d : ST7735R) :
  buffer (show d).2 = buffer d /\
  height (show d).2 = height d /\
  width (show d).2 = width d.
Proof.
  destruct (keeps_frame_show_loop (Z.to_nat (height d - 1 + 1)) (width d) 0
              (height d - 1) d) as (Hb & Hh & Hw & _).
  by repeat split.
Qed.

(** ** The end-to-end scenario: one red pixel at the top left *)

(** C5, as the code has it. A device of two rows of two pixels whose
    top-left pixel is [rgb(255, 0, 0)] and whose other pixels are 0, on a
    transport that accepts every write: [show] issues exactly two scanline
    transfers. The first one transmitted, addressed to panel row 1, carries
    in-memory row 0: its payload decodes to the red pixel ([R2R1R0 = 111],
    green and blue 0) followed by a black one. The second one transmitted,
    addressed to panel row 0, carries in-memory row 1 and decodes to two
    black pixels. *)
Theorem show_red_top_left (d : ST7735R) :
  wf d -> reliable d ->
  height d = 2 -> width d = 2 ->
  buffer d = [byte_of_Z (rgb 255 0 0); x00; x00; x00] ->
  exists s' t p1 p2,
    show d = (Ok tt, s') /\
    wire s' = wire d ++ t /\
    issued RAMWR t = [(RAMWR, [p1]); (RAMWR, [p2])] /\
    payloads RASET t = [[x00; x03; x00; x04]; [x00; x02; x00; x03]] /\
    decode_line p1 = [0xe0; 0] /\
    red_field 0xe0 = 7 /\ green_field 0xe0 = 0 /\ blue_field 0xe0 = 0 /\
    decode_line p2 = [0; 0].
Proof.
  intros Hwf Hrel Hh Hw Hbuf.
  destruct (show_reliable d Hwf Hrel) as (lb & _ & Hrun).
  eexists _, _, _, _. split; [exact Hrun|]. split; [reflexivity|].
  rewrite issued_ramwr_frame, payloads_raset_frame, Hh, Hw, Hbuf.
  repeat split.
Qed.

Lemma panel_2x2_red_wf : wf panel_2x2_red.
Proof. repeat split; simpl; lia. Qed.

Lemma show_red_top_left_witness :
  exists s' t p1 p2,
    show panel_2x2_red = (Ok tt, s') /\
    wire s' = wire panel_2x2_red ++ t /\
    issued RAMWR t = [(RAMWR, [p1]); (RAMWR, [p2])] /\
    payloads RASET t = [[x00; x03; x00; x04]; [x00; x02; x00; x03]] /\
    decode_line p1 = [0xe0; 0] /\
    red_field 0xe0 = 7 /\ green_field 0xe0 = 0 /\ blue_field 0xe0 = 0 /\
    decode_line p2 = [0; 0].
Proof.
  apply (show_red_top_left panel_2x2_red panel_2x2_red_wf);
    [intros k; reflexivity | reflexivity ..].
Defined.

(** C5 as stated fails: the second scanline transmitted holds no red pixel,
    both its pixels decode to 0. *)
Lemma show_second_scanline_black :
  ~ (exists s' t p1 p2 px,
        show panel_2x2_red = (Ok tt, s') /\
        wire s' = wire panel_2x2_red ++ t /\
        payloads RAMWR t = [p1; p2] /\
        px ∈ decode_line p2 /\
        red_field px = 7 /\ green_field px = 0 /\ blue_field px = 0).
Proof.
  intros (s' & t & p1 & p2 & px & Hrun & Hw & Hp & Hpx & Hr & _).
  vm_compute in Hrun. injection Hrun as <-.
  cbn [wire panel_2x2_red app] in Hw. subst t.
  vm_compute in Hp. injection Hp as <- <-.
  apply list_elem_of_In in Hpx. vm_compute in Hpx.
  destruct Hpx as [<-|[<-|[]]]; discriminate Hr.
Qed.

Example show_panel_2x2_red_ramwr :
  payloads RAMWR (wire (show panel_2x2_red).2)
  = [[x00; x1c; x00; x00]; [x00; x00; x00; x00]].
Proof. reflexivity. Qed.

(** ** Chip-select framing *)

Lemma cs_check_tail (p : bool) (e : event) (t : list event) :
  cs_check p (e :: t) = true -> exists p', cs_check p' t = true.
Proof.
  destruct e; simpl; eauto. destruct p; [done|eauto].
Qed.

Lemma cs_check_pending_mid (mid : list event) b t2 :
  cs_check true (mid ++ SpiWrite b :: t2) = true -> Cs 1 ∈ mid.
Proof.
  induction mid as [|e mid IH]; [done|].
  destruct e; simpl;
    try solve [done | intros H; apply list_elem_of_further; auto].
  destruct (decide (v = 1)) as [->|_]; intros H.
  - apply list_elem_of_here.
  - apply list_elem_of_further. auto.
Qed.

Lemma cs_check_sound (t : list event) (p : bool) :
  cs_check p t = true -> cs_framed t.
Proof.
  intros Hc t1. revert t p Hc.
  induction t1 as [|e t1 IH]; intros t p Hc a mid b t2 ->.
  - simpl in Hc. destruct p; [done|].
    by apply cs_check_pending_mid in Hc.
  - apply cs_check_tail in Hc as [p' Hc]. by eapply IH.
Qed.

Lemma cs_framed_prefix (t1 t2 : list event) :
  t1 `prefix_of` t2 -> cs_framed t2 -> cs_framed t1.
Proof.
  intros [rest ->] H u a mid b v ->.
  apply (H u a mid b (v ++ rest)).
  by rewrite <- !app_assoc, <- !app_comm_cons, <- !app_assoc.
Qed.

Lemma cs_check_app (p : bool) (t1 t2 : list event) :
  cs_check p (t1 ++ t2) = cs_check p t1 && cs_check (cs_pending p t1) t2.
Proof.
  revert p. induction t1 as [|e t1 IH]; intros p; [done|].
  destruct e; simpl; auto. by destruct p.
Qed.

Lemma cs_check_frame buf wd k :
  forall start row, cs_check false (frame_events buf wd k start row) = true.
Proof.
  induction k as [|k IH]; intros start row; [done|].
  cbn [frame_events]. rewrite cs_check_app, IH. reflexivity.
Qed.

Lemma cs_check_init : cs_check false init_events = true.
Proof. reflexivity. Qed.

(** C6. In the calls that [show] and [_init] make, chip-select is
    deasserted between any two bus writes, whatever the transport does: so
    between a command byte and the data payload that follows it, and
    between one command/data pair and the next. No chip-select assertion
    holds two writes, neither of different modes nor of different
    transactions. *)
Theorem bus_writes_framed :
  (forall d, wf d ->
     exists t, wire (show d).2 = wire d ++ t /\ cs_framed t) /\
  (forall d, exists t, wire (_init d).2 = wire d ++ t /\ cs_framed t).
Proof.
  split.
  - intros d Hwf. destruct (show_plays d Hwf) as (lb & _ & Hrun).
    rewrite Hrun. eexists. split; [reflexivity|].
    eapply cs_framed_prefix; [apply replay_prefix|].
    eapply cs_check_sound, cs_check_frame.
  - intros d. rewrite emits_init. unfold run_events.
    pose proof (replay_prefix (_spi d) (writes (wire d)) init_events) as Hpre.
    destruct (replay (_spi d) (writes (wire d)) init_events) as [r t].
    exists t. split; [reflexivity|].
    eapply cs_framed_prefix; [exact Hpre|].
    eapply cs_check_sound, cs_check_init.
Qed.

Lemma panel_4x2_failing_wf : wf panel_4x2_failing.
Proof. repeat split; simpl; lia. Qed.

Lemma bus_writes_framed_witness :
  (exists t,
      wire (show panel_4x2_failing).2 = wire panel_4x2_failing ++ t /\
      cs_framed t) /\
  (exists t, wire (_init panel_3x2).2 = wire panel_3x2 ++ t /\ cs_framed t).
Proof.
  split.
  - apply (proj1 bus_writes_framed panel_4x2_failing).
    repeat split; simpl; lia.
  - apply (proj2 bus_writes_framed panel_3x2).
Defined.

(** ** A transport failure aborts the refresh *)

Lemma writes_scanline buf wd start row :
  writes (scanline_events buf wd start row) = 6%nat.
Proof. reflexivity. Qed.

(** C7. The transport raises on the write of the write-memory payload of
    the third scanline, the 18th write of the refresh, having accepted the
    17 before it: [show] ends with the exception, and that write is the
    last call it makes. The log of the refresh then holds 18 writes, three
    column-address-set, three row-address-set and three write-memory
    commands: nothing is issued for the fourth scanline or any later
    one. *)
Theorem show_aborts_on_failed_write (d : ST7735R) :
  wf d ->
  3 <= height d ->
  (forall k, (k < 17)%nat -> _spi d (writes (wire d) + k)%nat = false) ->
  _spi d (writes (wire d) + 17)%nat = true ->
  exists s' t t0,
    show d = (Raised, s') /\
    wire s' = wire d ++ t /\
    t = t0 ++ [SpiWrite (encode_line (drop (Z.to_nat (2 * width d)) (buffer d))
                                     (Z.to_nat (width d)))] /\
    writes t = 18%nat /\
    length (issued CASET t) = 3%nat /\
    length (issued RASET t) = 3%nat /\
    length (issued RAMWR t) = 3%nat.
Proof.
  intros Hwf Hh Hok Hfail.
  destruct (show_plays d Hwf) as (lb & _ & Hrun). rewrite Hrun. clear Hrun.
  replace (Z.to_nat (height d))
    with (S (S (S (Z.to_nat (height d - 3))))) by lia.
  cbn [frame_events].
  rewrite (replay_first_failure _ _ (writes (wire d)) 17 Hok Hfail);
    [|rewrite !writes_app, !writes_scanline; lia].
  unfold scanline_events.
  replace (0 + width d + width d) with (2 * width d) by lia.
  generalize (frame_events (buffer d) (width d) (Z.to_nat (height d - 3))
                (2 * width d + width d) (height d - 1 - 1 - 1 - 1)).
  generalize (encode_line (drop (Z.to_nat (2 * width d)) (buffer d))
                (Z.to_nat (width d))).
  generalize (encode_line (drop (Z.to_nat (0 + width d)) (buffer d))
                (Z.to_nat (width d))).
  generalize (encode_line (drop (Z.to_nat 0) (buffer d))
                (Z.to_nat (width d))).
  generalize (raset_payload (height d - 1)).
  generalize (raset_payload (height d - 1 - 1)).
  generalize (raset_payload (height d - 1 - 1 - 1)).
  generalize caset_payload.
  intros c r2 r1 r0 l0 l1 l2 rest.
  lazymatch goal with
  | |- context [upto_write 17 ?X] =>
      exists (set_linebuf lb (logs (upto_write 17 X) d)),
             (upto_write 17 X), (take 70 (upto_write 17 X))
  end.
  repeat split; reflexivity.
Qed.

Lemma show_aborts_on_failed_write_witness :
  exists s' t t0,
    show panel_4x2_failing = (Raised, s') /\
    wire s' = wire panel_4x2_failing ++ t /\
    t = t0 ++ [SpiWrite [xc0; x00; x07; x00]] /\
    writes t = 18%nat /\
    length (issued CASET t) = 3%nat /\
    length (issued RASET t) = 3%nat /\
    length (issued RAMWR t) = 3%nat.
Proof.
  apply (show_aborts_on_failed_write panel_4x2_failing panel_4x2_failing_wf).
  - simpl. lia.
  - intros k Hk. simpl. apply Nat.eqb_neq. lia.
  - reflexivity.
Defined.

Example show_panel_4x2_failing_log :
  show panel_4x2_failing
  = (Raised,
     mkST7735R (_spi panel_4x2_failing) 4 2 (buffer panel_4x2_failing)
       [xc0; x00; x07; x00]
       (wcd_events CASET [x00; x03; x00; xa0] ++
        wcd_events RASET [x00; x05; x00; x06] ++
        wcd_events RAMWR [x00; x1c; xc7; x00] ++
        wcd_events CASET [x00; x03; x00; xa0] ++
        wcd_events RASET [x00; x04; x00; x05] ++
        wcd_events RAMWR [x00; x00; xc7; x1c] ++
        wcd_events CASET [x00; x03; x00; xa0] ++
        wcd_events RASET [x00; x03; x00; x04] ++
        [Dc 0; Cs 0; SpiWrite RAMWR; Cs 1; Dc 1; Cs 0;
         SpiWrite [xc0; x00; x07; x00]])).
Proof. reflexivity. Qed.

(** ** The constructor establishes the invariant *)

Lemma show_keeps_wf (d : ST7735R) : wf d -> wf (show d).2.
Proof.
  intros Hwf. destruct (show_plays d Hwf) as (lb & Hlen & Hrun).
  rewrite Hrun. destruct Hwf as (Hh & Hw & Hbuf & Hlb).
  repeat split; simpl; congruence.
Qed.

Lemma constructed_wf spi wire0 h w r d :
  0 <= h ->
  __init__ spi wire0 h w = Some (r, d) ->
  wf d.
Proof.
  intros Hh. unfold __init__, bytearray.
  destruct (decide (h * w < 0)) as [|Hhw]; [done|].
  destruct (decide (w * 2 < 0)) as [|Hw]; [done|].
  cbn [mbind option_bind]. intros [= Hrun].
  set (d0 := mkST7735R spi h w (replicate (Z.to_nat (h * w)) x00)
                       (replicate (Z.to_nat (w * 2)) x00) wire0) in Hrun.
  assert (Hd0 : wf d0).
  { repeat split; simpl; rewrite ?length_replicate; lia. }
  unfold mbind, M_bind in Hrun. rewrite emits_init in Hrun.
  unfold run_events in Hrun.
  destruct (replay (_spi d0) (writes (wire d0)) init_events)
    as [[[]| | |] t]; try (injection Hrun as _ <-; exact Hd0).
  assert (Hd1 : wf (logs t d0)) by exact Hd0.
  pose proof (show_keeps_wf _ Hd1) as Hd2.
  destruct (show (logs t d0)) as [r' d'].
  by injection Hrun as _ <-.
Qed.

(** ** The log of a small refresh, read back *)

Example show_panel_2x2_red_commands :
  commands (wire (show panel_2x2_red).2)
  = [(CASET, [[x00; x03; x00; xa0]]);
     (RASET, [[x00; x03; x00; x04]]);
     (RAMWR, [[x00; x1c; x00; x00]]);
     (CASET, [[x00; x03; x00; xa0]]);
     (RASET, [[x00; x02; x00; x03]]);
     (RAMWR, [[x00; x00; x00; x00]])].
Proof. reflexivity. Qed.

Example init_panel_3x2_commands :
  length (commands (wire (_init panel_3x2).2)) = 19%nat /\
  cs_check false (wire (_init panel_3x2).2) = true /\
  (_init panel_3x2).1 = Ok tt.
Proof. by vm_compute. Qed.

(** * Further properties of the driver *)

(** ** The 12-bit codec [_lcopy12] *)

Lemma pairs_of_even (k : nat) : Z.to_nat ((Z.of_nat (2 * k) + 1) / 2) = k.
Proof.
  rewrite <- (Nat2Z.id k) at 2. f_equal.
  symmetry. apply (Z.div_unique _ _ _ 1); lia.
Qed.

Lemma pairs_of_odd (k : nat) : Z.to_nat ((Z.of_nat (2 * k + 1) + 1) / 2) = S k.
Proof.
  rewrite <- (Nat2Z.id (S k)). f_equal.
  symmetry. apply (Z.div_unique _ _ _ 0); lia.
Qed.

Lemma encode_line12_S (source : list byte) (x k : nat) (sc sd : byte) :
  source !! x = Some sc ->
  source !! (x + 1)%nat = Some sd ->
  encode_line12 (drop x source) (S k)
  = wire12_pair sc sd ++ encode_line12 (drop (x + 2) source) k.
Proof.
  intros Hc Hd. rewrite (drop_S _ _ _ Hc).
  replace (x + 1)%nat with (S x) in Hd by lia.
  rewrite (drop_S _ _ _ Hd).
  replace (x + 2)%nat with (S (S x)) by lia. reflexivity.
Qed.

Lemma length_encode_line12 (k : nat) :
  forall source : list byte,
    (2 * k <= length source)%nat ->
    length (encode_line12 source k) = (3 * k)%nat.
Proof.
  induction k as [|k IH]; intros source Hs; [by destruct source|].
  destruct source as [|sc [|sd rest]]; simpl in Hs; try lia.
  cbn [encode_line12]. rewrite length_app, IH by lia. simpl. lia.
Qed.

Lemma lcopy12_loop_spec (k : nat) :
  forall (x n : nat) (dest source : list byte),
    (x + 2 * k <= length source)%nat ->
    (n + 3 * k <= length dest)%nat ->
    _lcopy12_loop k x n dest source
    = Some (take n dest ++ encode_line12 (drop x source) k
            ++ drop (n + 3 * k) dest).
Proof.
  induction k as [|k IH]; intros x n dest source Hs Hd.
  - cbn [_lcopy12_loop]. replace (encode_line12 (drop x source) 0) with
      (@nil byte) by by destruct (drop x source).
    cbn [app]. rewrite Nat.add_0_r, take_drop. reflexivity.
  - destruct (lookup_lt_is_Some_2 source x ltac:(lia)) as [sc Hsc].
    destruct (lookup_lt_is_Some_2 source (x + 1) ltac:(lia)) as [sd Hsd].
    cbn [_lcopy12_loop]. unfold ptr8_load, ptr8_store. rewrite Hsc, Hsd.
    cbn [fmap option_fmap option_map mbind option_bind].
    destruct (decide (n < length dest)%nat) as [_|Hn]; [|lia].
    cbn [mbind option_bind]. rewrite length_insert.
    destruct (decide (n + 1 < length dest)%nat) as [_|Hn]; [|lia].
    cbn [mbind option_bind]. rewrite !length_insert.
    destruct (decide (n + 1 + 1 < length dest)%nat) as [_|Hn]; [|lia].
    cbn [mbind option_bind].
    fold (r0g0 (Z_of_byte sc)). fold (b0r1 (Z_of_byte sc) (Z_of_byte sd)).
    fold (g1b1 (Z_of_byte sd)).
    rewrite IH by (rewrite ?length_insert; lia).
    rewrite (encode_line12_S _ _ _ _ _ Hsc Hsd). f_equal.
    replace (n + 1 + 1 + 1 + 3 * k)%nat with (n + 3 * S k)%nat by lia.
    rewrite !drop_insert_lt by lia.
    replace (n + 1 + 1 + 1)%nat with (S (S (S n))) by lia.
    replace (n + 1 + 1)%nat with (S (S n)) by lia.
    replace (n + 1)%nat with (S n) by lia.
    erewrite take_S_r; last first.
    { apply list_lookup_insert_eq. rewrite !length_insert. lia. }
    erewrite take_S_r; last first.
    { rewrite list_lookup_insert_ne by lia.
      apply list_lookup_insert_eq. rewrite length_insert. lia. }
    erewrite take_S_r; last first.
    { rewrite !list_lookup_insert_ne by lia.
      apply list_lookup_insert_eq. lia. }
    rewrite !take_insert_ge by lia.
    unfold wire12_pair. rewrite <- !app_assoc. reflexivity.
Qed.

Lemma encode_line12_lookup (j : nat) :
  forall (source : list byte) (k : nat) (sc sd : byte),
    (j < k)%nat ->
    source !! (2 * j)%nat = Some sc ->
    source !! (2 * j + 1)%nat = Some sd ->
    encode_line12 source k !! (3 * j)%nat
    = Some (byte_of_Z (r0g0 (Z_of_byte sc))) /\
    encode_line12 source k !! (3 * j + 1)%nat
    = Some (byte_of_Z (b0r1 (Z_of_byte sc) (Z_of_byte sd))) /\
    encode_line12 source k !! (3 * j + 2)%nat
    = Some (byte_of_Z (g1b1 (Z_of_byte sd))).
Proof.
  induction j as [|j IH]; intros source k sc sd Hj Hc Hd;
    (destruct k as [|k]; [lia|]);
    destruct source as [|a [|b rest]]; try done.
  - simpl in Hc, Hd. injection Hc as ->. injection Hd as ->. by repeat split.
  - replace (2 * S j)%nat with (S (S (2 * j))) in Hc by lia.
    replace (2 * S j + 1)%nat with (S (S (2 * j + 1))) in Hd by lia.
    replace (3 * S j)%nat with (S (S (S (3 * j)))) by lia.
    apply (IH rest k sc sd); [lia|done|done].
Qed.

Lemma r0g0_byte (c : byte) :
  let z := Z_of_byte c in
  Z_of_byte (byte_of_Z (r0g0 z)) = r0g0 z /\
  Z.shiftr (r0g0 z) 4 = Z.shiftl (red_field z) 1 /\
  Z.land (r0g0 z) 0xf = Z.shiftl (green_field z) 1.
Proof. destruct c; repeat split. Qed.

Lemma g1b1_byte (d : byte) :
  let z := Z_of_byte d in
  Z_of_byte (byte_of_Z (g1b1 z)) = g1b1 z /\
  Z.shiftr (g1b1 z) 4 = Z.shiftl (green_field z) 1 /\
  Z.land (g1b1 z) 0xf = Z.shiftl (blue_field z) 2.
Proof. destruct d; repeat split. Qed.

Lemma b0r1_high (c : byte) :
  let z := Z_of_byte c in
  let hi := Z.shiftl (Z.land z 3) 6 in
  Z.land hi 0xff = hi /\ Z.shiftr hi 4 = Z.shiftl (blue_field z) 2 /\
  Z.land hi 0xf = 0.
Proof. destruct c; repeat split. Qed.

Lemma b0r1_low (d : byte) :
  let z := Z_of_byte d in
  let lo := Z.shiftr (Z.land z 0xe0) 4 in
  Z.land lo 0xff = lo /\ Z.shiftr lo 4 = 0 /\
  Z.land lo 0xf = Z.shiftl (red_field z) 1.
Proof. destruct d; repeat split. Qed.

Lemma b0r1_byte (c d : byte) :
  let zc := Z_of_byte c in
  let zd := Z_of_byte d in
  Z_of_byte (byte_of_Z (b0r1 zc zd)) = b0r1 zc zd /\
  Z.shiftr (b0r1 zc zd) 4 = Z.shiftl (blue_field zc) 2 /\
  Z.land (b0r1 zc zd) 0xf = Z.shiftl (red_field zd) 1.
Proof.
  intros zc zd. unfold b0r1.
  destruct (b0r1_high c) as (H1 & H2 & H3).
  destruct (b0r1_low d) as (L1 & L2 & L3).
  fold zc in H1, H2, H3. fold zd in L1, L2, L3.
  cbv zeta in H1, H2, H3, L1, L2, L3.
  split; [|split].
  - rewrite Z_of_byte_of_Z_mod. change 256 with (2 ^ 8).
    rewrite <- Z.land_ones by lia. change (Z.ones 8) with 0xff.
    by rewrite Z.land_lor_distr_l, H1, L1.
  - by rewrite Z.shiftr_lor, H2, L2, Z.lor_0_r.
  - by rewrite Z.land_lor_distr_l, H3, L3, Z.lor_0_l.
Qed.

Lemma lcopy12_spec (dest source : list byte) (k : nat) :
  (2 * k <= length source)%nat ->
  (3 * k <= length dest)%nat ->
  _lcopy12 dest source (Z.of_nat (2 * k))
  = Some (encode_line12 source k ++ drop (3 * k) dest).
Proof.
  intros Hs Hd. unfold _lcopy12. rewrite pairs_of_even.
  rewrite lcopy12_loop_spec by lia. reflexivity.
Qed.

(** X1. [_lcopy12] over [k] pairs of pixels, with a source of at least
    [2 k] bytes and a destination of at least [3 k]: it returns, and for
    every pair [j < k] with source bytes [c], [d] the destination holds at
    index [3 j] the byte [(c & 0xe0) | ((c & 0x1c) >> 1)], at [3 j + 1] the
    byte [((c & 3) << 6) | ((d & 0xe0) >> 4)] and at [3 j + 2] the byte
    [((d & 0x1c) << 3) | ((d & 3) << 2)]. The length of the destination is
    kept, and so is every byte from index [3 k] on. *)
Theorem lcopy12_pair_bytes (dest source : list byte) (k : nat) :
  (2 * k <= length source)%nat ->
  (3 * k <= length dest)%nat ->
  exists dest',
    _lcopy12 dest source (Z.of_nat (2 * k)) = Some dest' /\
    length dest' = length dest /\
    (forall (j : nat) (sc sd : byte),
        (j < k)%nat ->
        source !! (2 * j)%nat = Some sc ->
        source !! (2 * j + 1)%nat = Some sd ->
        exists b0 b1 b2 : byte,
          dest' !! (3 * j)%nat = Some b0 /\
          dest' !! (3 * j + 1)%nat = Some b1 /\
          dest' !! (3 * j + 2)%nat = Some b2 /\
          let c := Z_of_byte sc in
          let d := Z_of_byte sd in
          Z_of_byte b0 = Z.lor (Z.land c 0xe0) (Z.shiftr (Z.land c 0x1c) 1) /\
          Z_of_byte b1
          = Z.lor (Z.shiftl (Z.land c 3) 6) (Z.shiftr (Z.land d 0xe0) 4) /\
          Z_of_byte b2
          = Z.lor (Z.shiftl (Z.land d 0x1c) 3) (Z.shiftl (Z.land d 3) 2)) /\
    (forall i : nat, (3 * k <= i)%nat -> dest' !! i = dest !! i).
Proof.
  intros Hs Hd. eexists. split; [by apply lcopy12_spec|].
  assert (Hlen : length (encode_line12 source k) = (3 * k)%nat)
    by by apply length_encode_line12.
  split; [|split].
  - rewrite length_app, Hlen, length_drop. lia.
  - intros j sc sd Hj Hc Hd'.
    destruct (encode_line12_lookup j source k sc sd Hj Hc Hd')
      as (H0 & H1 & H2).
    eexists _, _, _. rewrite !lookup_app_l by lia.
    split; [exact H0|]. split; [exact H1|]. split; [exact H2|].
    split; [apply r0g0_byte|]. split; [apply b0r1_byte|apply g1b1_byte].
  - intros i Hi. rewrite lookup_app_r by lia.
    rewrite lookup_drop, Hlen. f_equal. lia.
Qed.

Lemma lcopy12_pair_bytes_witness :
  exists dest',
    _lcopy12 [xff; xff; xff; xff; xff; xff; xaa] pair_source 4 = Some dest' /\
    dest' = [xe0; x00; xec; x4a; x4a; x48; xaa].
Proof.
  destruct (lcopy12_pair_bytes [xff; xff; xff; xff; xff; xff; xaa]
              pair_source 2) as (dest' & Hrun & _);
    [simpl; lia | simpl; lia |].
  exists dest'. split; [exact Hrun|].
  vm_compute in Hrun. by injection Hrun as <-.
Defined.

(** X2. The three bytes [_lcopy12] emits for a pair of pixels are a
    lossless 12-bit encoding of both: read as two pixels of three 4-bit
    channels, the first has the red, green and blue sub-fields of the first
    source byte and the second those of the second source byte, each
    left-justified in its nibble (three bits shifted by one, two bits
    shifted by two), so that the padding bits are zero. *)
Theorem lcopy12_lossless (sc sd d0 d1 d2 : byte) :
  exists b0 b1 b2 : byte,
    _lcopy12 [d0; d1; d2] [sc; sd] 2 = Some [b0; b1; b2] /\
    let c := Z_of_byte sc in
    let d := Z_of_byte sd in
    rgb444_first (Z_of_byte b0) (Z_of_byte b1) (Z_of_byte b2)
    = (Z.shiftl (red_field c) 1, Z.shiftl (green_field c) 1,
       Z.shiftl (blue_field c) 2) /\
    rgb444_second (Z_of_byte b0) (Z_of_byte b1) (Z_of_byte b2)
    = (Z.shiftl (red_field d) 1, Z.shiftl (green_field d) 1,
       Z.shiftl (blue_field d) 2).
Proof.
  exists (byte_of_Z (r0g0 (Z_of_byte sc))),
         (byte_of_Z (b0r1 (Z_of_byte sc) (Z_of_byte sd))),
         (byte_of_Z (g1b1 (Z_of_byte sd))).
  split; [reflexivity|].
  destruct (r0g0_byte sc) as (A1 & A2 & A3).
  destruct (b0r1_byte sc sd) as (B1 & B2 & B3).
  destruct (g1b1_byte sd) as (C1 & C2 & C3).
  cbv zeta in *. unfold rgb444_first, rgb444_second.
  rewrite A1, B1, C1. split; congruence.
Qed.

Lemma lcopy12_loop_Some (k : nat) :
  forall (x n : nat) (dest source r : list byte),
    _lcopy12_loop k x n dest source = Some r ->
    k = 0%nat \/
    ((x + 2 * k <= length source)%nat /\ (n + 3 * k <= length dest)%nat).
Proof.
  induction k as [|k IH]; intros x n dest source r H; [by left|right].
  cbn [_lcopy12_loop] in H. unfold ptr8_load, ptr8_store in H.
  destruct (source !! x) as [sc|] eqn:Ec; [|done].
  destruct (source !! (x + 1)%nat) as [sd|] eqn:Ed; [|done].
  cbn [fmap option_fmap option_map mbind option_bind] in H.
  destruct (decide (n < length dest)%nat); [|done].
  cbn [mbind option_bind] in H. rewrite length_insert in H.
  destruct (decide (n + 1 < length dest)%nat); [|done].
  cbn [mbind option_bind] in H. rewrite !length_insert in H.
  destruct (decide (n + 1 + 1 < length dest)%nat); [|done].
  cbn [mbind option_bind] in H.
  apply lookup_lt_Some in Ed.
  apply IH in H as [->|[H1 H2]]; rewrite ?length_insert in *; lia.
Qed.

(** X3. An odd [length] makes [_lcopy12] convert one pair more than the
    pixels it was given: [length = 2 k + 1] behaves as [2 k + 2], so the
    byte at source index [2 k + 1] is read and three more destination bytes
    are written. With a source of [2 k + 1] bytes or fewer that read falls
    outside the source. *)
Theorem lcopy12_odd_length (dest source : list byte) (k : nat) :
  _lcopy12 dest source (Z.of_nat (2 * k + 1))
  = _lcopy12 dest source (Z.of_nat (2 * k + 2)) /\
  ((length source <= 2 * k + 1)%nat ->
   _lcopy12 dest source (Z.of_nat (2 * k + 1)) = None).
Proof.
  unfold _lcopy12. rewrite pairs_of_odd.
  replace (2 * k + 2)%nat with (2 * S k)%nat by lia. rewrite pairs_of_even.
  split; [reflexivity|]. intros Hs.
  destruct (_lcopy12_loop (S k) 0 0 dest source) as [r|] eqn:E; [|done].
  apply lcopy12_loop_Some in E as [?|[H1 H2]]; lia.
Qed.

Lemma lcopy12_odd_length_witness :
  _lcopy12 [x00; x00; x00] [xe0] 1 = _lcopy12 [x00; x00; x00] [xe0] 2 /\
  _lcopy12 [x00; x00; x00] [xe0] 1 = None.
Proof.
  destruct (lcopy12_odd_length [x00; x00; x00] [xe0] 0) as [H1 H2].
  split; [exact H1|]. apply H2. simpl. lia.
Defined.

(** ** Bounds and overwriting in [_lcopy] *)

Lemma lcopy_loop_Some (k : nat) :
  forall (x n : nat) (dest source r : list byte),
    _lcopy_loop k x n dest source = Some r ->
    k = 0%nat \/
    ((x + k <= length source)%nat /\ (n + 2 * k <= length dest)%nat).
Proof.
  induction k as [|k IH]; intros x n dest source r H; [by left|right].
  cbn [_lcopy_loop] in H. unfold ptr8_load, ptr8_store in H.
  destruct (source !! x) as [sc|] eqn:Ec; [|done].
  cbn [fmap option_fmap option_map mbind option_bind] in H.
  destruct (decide (n < length dest)%nat); [|done].
  cbn [mbind option_bind] in H. rewrite length_insert in H.
  destruct (decide (n + 1 < length dest)%nat); [|done].
  cbn [mbind option_bind] in H.
  apply lookup_lt_Some in Ec.
  apply IH in H as [->|[H1 H2]]; rewrite ?length_insert in *; lia.
Qed.

(** X4. [_lcopy] stays inside its two buffers exactly when the caller's
    precondition holds: for [n] pixels it returns if and only if [n = 0], or
    the source has at least [n] bytes and the destination at least [2 n].
    Otherwise some access falls outside a buffer. *)
Theorem lcopy_in_bounds_iff (dest source : list byte) (n : nat) :
  is_Some (_lcopy dest source (Z.of_nat n)) <->
  n = 0%nat \/ ((n <= length source)%nat /\ (2 * n <= length dest)%nat).
Proof.
  unfold _lcopy. rewrite Nat2Z.id. split.
  - intros [r Hr]. apply lcopy_loop_Some in Hr. lia.
  - intros [->|[Hs Hd]]; [by eexists|].
    rewrite lcopy_loop_spec by lia. by eexists.
Qed.




(** ** The colour encoder [rgb] *)

(** X6. [rgb] reaches every packed colour: expanding the sub-fields of a
    packed colour [c] to 8-bit channels (three bits shifted left by five,
    two bits by six) and encoding again gives [c] back. *)
Theorem rgb_of_fields (c : Z) :
  0 <= c < 256 ->
  rgb (Z.shiftl (red_field c) 5) (Z.shiftl (green_field c) 5)
      (Z.shiftl (blue_field c) 6) = c.
Proof. intros [sc ->]%Z_byte_cases. destruct sc; reflexivity. Qed.

Lemma rgb_of_fields_witness :
  rgb (Z.shiftl (red_field 0xb6) 5) (Z.shiftl (green_field 0xb6) 5)
      (Z.shiftl (blue_field 0xb6) 6) = 0xb6.
Proof. apply (rgb_of_fields 0xb6). lia. Defined.

Lemma rgb_byte_range (r g b : Z) :
  0 <= r < 256 -> 0 <= g < 256 -> 0 <= b < 256 ->
  0 <= rgb r g b < 256 /\
  red_field (rgb r g b) = Z.shiftr r 5 /\
  green_field (rgb r g b) = Z.shiftr g 5 /\
  blue_field (rgb r g b) = Z.shiftr b 6.
Proof.
  intros Hr Hg Hb. unfold rgb.
  rewrite rgb_red_part, rgb_green_part by done.
  destruct (shiftr_range r 5) as [HR|]; [lia|done| |lia].
  destruct (shiftr_range g 5) as [HG|]; [lia|done| |lia].
  destruct (shiftr_range b 6) as [HB|]; [lia|done| |lia].
  change (2 ^ (8 - 5)) with 8 in *. change (2 ^ (8 - 6)) with 4 in *.
  destruct (packed_fields _ _ _ HR HG HB)
    as (Hc & _ & _ & _ & H4 & H5 & H6 & _).
  split; [exact Hc|]. by repeat split.
Qed.

Lemma land_low_byte (z m : Z) :
  Z.land 0xff m = m -> Z.land (z mod 256) m = Z.land z m.
Proof.
  intros Hm. change 256 with (2 ^ 8). rewrite <- Z.land_ones by lia.
  change (Z.ones 8) with 0xff. by rewrite <- Z.land_assoc, Hm.
Qed.

(** X7. [rgb] masks its red and green arguments but not its blue one: for
    any integers [r] and [g], also negative ones or ones above 255, only
    the low byte counts, and with [b] in 0..255 the result is an 8-bit
    value whose sub-fields are bits 7..5 of [r], bits 7..5 of [g] and bits
    7..6 of [b]. *)
Theorem rgb_masks_red_green (r g b : Z) :
  0 <= b < 256 ->
  rgb r g b = rgb (r mod 256) (g mod 256) b /\
  0 <= rgb r g b < 256 /\
  red_field (rgb r g b) = Z.shiftr (r mod 256) 5 /\
  green_field (rgb r g b) = Z.shiftr (g mod 256) 5 /\
  blue_field (rgb r g b) = Z.shiftr b 6.
Proof.
  intros Hb.
  assert (Heq : rgb r g b = rgb (r mod 256) (g mod 256) b).
  { unfold rgb. f_equal. f_equal.
    - symmetry. by apply land_low_byte.
    - change 256 with (2 ^ 8). rewrite <- Z.land_ones by lia.
      rewrite Z.shiftr_land. change (Z.shiftr (Z.ones 8) 3) with 0x1f.
      by rewrite <- Z.land_assoc. }
  split; [exact Heq|]. rewrite Heq.
  apply rgb_byte_range; [apply Z.mod_pos_bound; lia..|done].
Qed.

Lemma rgb_masks_red_green_witness :
  rgb 511 (-1) 64 = rgb 255 255 64 /\ rgb 511 (-1) 64 = 0xfd.
Proof.
  destruct (rgb_masks_red_green 511 (-1) 64) as (H & _); [lia|].
  split; [exact H|reflexivity].
Defined.

(** ** How a run against the transport ends *)

Lemma replay_outcome spi evs :
  forall k,
    (replay spi k evs = (Ok tt, evs) /\
     forall j, (j < writes evs)%nat -> spi (k + j)%nat = false) \/
    (exists t0 p rest,
        evs = t0 ++ SpiWrite p :: rest /\
        replay spi k evs = (Raised, t0 ++ [SpiWrite p]) /\
        spi (k + writes t0)%nat = true /\
        forall j, (j < writes t0)%nat -> spi (k + j)%nat = false).
Proof.
  induction evs as [|e evs IH]; intros k.
  - left. split; [done|]. simpl. lia.
  - assert (Hskip : forall e', writes [e'] = 0%nat ->
              (replay spi k (e' :: evs)
               = let '(res, t) := replay spi k evs in (res, e' :: t)) ->
              (replay spi k (e' :: evs) = (Ok tt, e' :: evs) /\
               forall j, (j < writes (e' :: evs))%nat ->
                         spi (k + j)%nat = false) \/
              (exists t0 p rest,
                  e' :: evs = t0 ++ SpiWrite p :: rest /\
                  replay spi k (e' :: evs) = (Raised, t0 ++ [SpiWrite p]) /\
                  spi (k + writes t0)%nat = true /\
                  forall j, (j < writes t0)%nat -> spi (k + j)%nat = false)).
    { intros e' He' Hrun. rewrite Hrun.
      assert (Hw : forall l, writes (e' :: l) = writes l).
      { intros l. change (e' :: l) with ([e'] ++ l).
        by rewrite writes_app, He'. }
      destruct (IH k) as [[-> Hok]|(t0 & p & rest & -> & -> & Hf & Hok)].
      - left. split; [done|]. by rewrite Hw.
      - right. exists (e' :: t0), p, rest. rewrite Hw. by repeat split. }
    destruct e; try (apply Hskip; reflexivity).
    cbn [replay writes]. destruct (spi k) eqn:Ek.
    + right. exists [], buf, evs. simpl. rewrite Nat.add_0_r.
      repeat split; [done|]. lia.
    + destruct (IH (S k)) as [[-> Hok]|(t0 & p & rest & -> & -> & Hf & Hok)].
      * left. split; [done|]. intros [|j] Hj.
        -- by rewrite Nat.add_0_r.
        -- replace (k + S j)%nat with (S k + j)%nat by lia. apply Hok. lia.
      * right. exists (SpiWrite buf :: t0), p, rest. simpl.
        replace (k + S (writes t0))%nat with (S k + writes t0)%nat by lia.
        repeat split; [done|]. intros [|j] Hj.
        -- by rewrite Nat.add_0_r.
        -- replace (k + S j)%nat with (S k + j)%nat by lia. apply Hok. lia.
Qed.

Lemma sel_check_tail (sel : bool) (e : event) (t : list event) :
  sel_check sel (e :: t) = true ->
  exists sel', sel_check sel' t = true /\ (sel' = true -> e = Cs 0).
Proof.
  destruct e; simpl; try (intros H; exists false; by split).
  - destruct (decide (v = 0)) as [->|]; intros H.
    + by exists true.
    + exists false. by split.
  - intros [_ H]%andb_true_iff. exists false. by split.
Qed.

Lemma sel_check_sound (t1 : list event) :
  forall (t : list event) (sel : bool) buf t2,
    sel_check sel t = true ->
    t = t1 ++ SpiWrite buf :: t2 ->
    (t1 = [] /\ sel = true) \/ exists t0, t1 = t0 ++ [Cs 0].
Proof.
  induction t1 as [|e t1 IH]; intros t sel buf t2 Hc ->.
  - left. simpl in Hc. apply andb_true_iff in Hc as [-> _]. done.
  - right. cbn [app] in Hc.
    apply sel_check_tail in Hc as (sel' & Hc & He).
    destruct (IH _ sel' buf t2 Hc eq_refl) as [[-> Hs]|[t0 ->]].
    + exists []. by rewrite He.
    + by exists (e :: t0).
Qed.

Lemma sel_check_selected (t : list event) :
  sel_check false t = true -> writes_selected t.
Proof.
  intros Hc t1 buf t2 Ht.
  by destruct (sel_check_sound t1 t false buf t2 Hc Ht) as [[_ ?]|?].
Qed.

Lemma writes_selected_prefix (t1 t2 : list event) :
  t1 `prefix_of` t2 -> writes_selected t2 -> writes_selected t1.
Proof.
  intros [rest ->] H u buf v ->.
  apply (H u buf (v ++ rest)).
  by rewrite <- !app_assoc, <- !app_comm_cons.
Qed.

Lemma sel_check_frame buf wd k :
  forall sel start row,
    sel_check sel (frame_events buf wd k start row) = true.
Proof.
  induction k as [|k IH]; intros sel start row; [done|].
  cbn [frame_events]. unfold scanline_events. rewrite <- !app_assoc.
  cbn -[frame_events]. apply IH.
Qed.

Lemma sel_check_init : sel_check false init_events = true.
Proof. reflexivity. Qed.

Lemma writes_frame buf wd k :
  forall start row,
    writes (frame_events buf wd k start row) = (6 * k)%nat.
Proof.
  induction k as [|k IH]; intros start row; [done|].
  cbn [frame_events]. rewrite writes_app, IH, writes_scanline. lia.
Qed.

Lemma length_frame buf wd k :
  forall start row,
    length (frame_events buf wd k start row) = (24 * k)%nat.
Proof.
  induction k as [|k IH]; intros start row; [done|].
  cbn [frame_events]. rewrite length_app, IH. simpl. lia.
Qed.

Lemma refresh_events_frame buf wd k :
  forall start row,
    forallb refresh_event (frame_events buf wd k start row) = true.
Proof.
  induction k as [|k IH]; intros start row; [done|].
  cbn [frame_events]. rewrite forallb_app, IH. reflexivity.
Qed.

Lemma forallb_prefix {A} (f : A -> bool) (t1 t2 : list A) :
  t1 `prefix_of` t2 -> forallb f t2 = true -> forallb f t1 = true.
Proof.
  intros [rest ->]. rewrite forallb_app. by intros [? _]%andb_true_iff.
Qed.

Lemma writes_prefix (t1 t2 : list event) :
  t1 `prefix_of` t2 -> (writes t1 <= writes t2)%nat.
Proof. intros [rest ->]. rewrite writes_app. lia. Qed.

(** What [show] does on a device that satisfies the invariant, for any
    transport: how it ends and what it logs, by [replay]. *)
Lemma show_run (d : ST7735R) :
  wf d ->
  let evs := frame_events (buffer d) (width d) (Z.to_nat (height d)) 0
                          (height d - 1) in
  (show d).1 = (replay (_spi d) (writes (wire d)) evs).1 /\
  wire (show d).2 = wire d ++ (replay (_spi d) (writes (wire d)) evs).2.
Proof.
  intros Hwf evs. destruct (show_plays d Hwf) as (lb & _ & Hrun).
  fold evs in Hrun. by rewrite Hrun.
Qed.

Lemma init_run (d : ST7735R) :
  (_init d).1 = (replay (_spi d) (writes (wire d)) init_events).1 /\
  wire (_init d).2
  = wire d ++ (replay (_spi d) (writes (wire d)) init_events).2.
Proof.
  rewrite emits_init. unfold run_events.
  by destruct (replay (_spi d) (writes (wire d)) init_events).
Qed.

(** ** Refresh on any transport *)

(** X8. A refresh of a device that satisfies the invariant ends in one of
    two ways, whatever the transport does. Either it returns: then the
    transport accepted all [6 * height] writes. Or it ends with the
    exception of the first write that the transport refuses: that write is
    the last call made, chip-select was asserted right before it and is
    left asserted, and no later write is attempted. It never reads or
    writes outside a buffer and never fails to terminate. *)
Theorem show_returns_or_raises (d : ST7735R) :
  wf d ->
  let k := writes (wire d) in
  let n := (6 * Z.to_nat (height d))%nat in
  ((show d).1 = Ok tt /\
   (forall j, (j < n)%nat -> _spi d (k + j)%nat = false) /\
   exists t, wire (show d).2 = wire d ++ t /\ writes t = n) \/
  ((show d).1 = Raised /\
   exists t0 p,
     wire (show d).2 = wire d ++ t0 ++ [Cs 0; SpiWrite p] /\
     (writes t0 < n)%nat /\
     _spi d (k + writes t0)%nat = true /\
     forall j, (j < writes t0)%nat -> _spi d (k + j)%nat = false).
Proof.
  intros Hwf k n. subst k. destruct (show_run d Hwf) as [Hres Hlog].
  rewrite Hres, Hlog. clear Hres Hlog.
  set (evs := frame_events (buffer d) (width d) (Z.to_nat (height d)) 0
                           (height d - 1)).
  assert (Hw : writes evs = n) by apply writes_frame.
  destruct (replay_outcome (_spi d) evs (writes (wire d)))
    as [[-> Hok]|(t0 & p & rest & Hevs & -> & Hf & Hok)].
  - left. split; [done|]. rewrite <- Hw. split; [done|]. by exists evs.
  - right. split; [done|].
    destruct (sel_check_sound t0 evs false p rest
                (sel_check_frame _ _ _ _ _ _) Hevs) as [[_ ?]|[t1 ->]]; [done|].
    exists t1, p.
    rewrite Hevs, !writes_app in Hw. rewrite writes_app in Hf, Hok.
    simpl in Hw, Hf, Hok. rewrite Nat.add_0_r in Hf, Hok.
    split; [by rewrite <- !app_assoc|]. split; [lia|]. by split.
Qed.

Lemma show_returns_or_raises_witness :
  (show panel_4x2_failing).1 = Raised /\
  exists t0 p,
    wire (show panel_4x2_failing).2
    = wire panel_4x2_failing ++ t0 ++ [Cs 0; SpiWrite p] /\
    (writes t0 < 24)%nat /\
    _spi panel_4x2_failing (0 + writes t0)%nat = true.
Proof.
  destruct (show_returns_or_raises panel_4x2_failing panel_4x2_failing_wf)
    as [[H _]|[H (t0 & p & H1 & H2 & H3 & _)]].
  - vm_compute in H. discriminate H.
  - split; [exact H|]. exists t0, p. by repeat split.
Defined.

(** X9. A refresh drives only the data/command line, chip-select and the
    bus: whatever the transport does, nothing in what it logs is a call of
    the reset pin or of [sleep_ms], and it makes at most [6 * height] bus
    writes in at most [24 * height] calls. *)
Theorem show_only_bus_calls (d : ST7735R) :
  wf d ->
  exists t,
    wire (show d).2 = wire d ++ t /\
    forallb refresh_event t = true /\
    (writes t <= 6 * Z.to_nat (height d))%nat /\
    (length t <= 24 * Z.to_nat (height d))%nat.
Proof.
  intros Hwf. destruct (show_run d Hwf) as [_ Hlog]. cbv zeta in Hlog.
  eexists. split; [exact Hlog|].
  pose proof (replay_prefix (_spi d) (writes (wire d))
                (frame_events (buffer d) (width d) (Z.to_nat (height d)) 0
                              (height d - 1))) as Hpre.
  split; [|split].
  - eapply forallb_prefix; [exact Hpre|apply refresh_events_frame].
  - rewrite <- (writes_frame (buffer d) (width d) _ 0 (height d - 1)).
    by apply writes_prefix.
  - rewrite <- (length_frame (buffer d) (width d) _ 0 (height d - 1)).
    by apply prefix_length.
Qed.

Lemma show_only_bus_calls_witness :
  exists t,
    wire (show panel_3x2).2 = wire panel_3x2 ++ t /\
    forallb refresh_event t = true /\
    (writes t <= 6 * 3)%nat /\ (length t <= 24 * 3)%nat.
Proof. exact (show_only_bus_calls panel_3x2 panel_3x2_wf). Defined.

(** X10. In the calls that [show] and [_init] make, every bus write comes
    right after the call that asserts chip-select, whatever the transport
    does: no byte goes out while the panel is deselected. *)
Theorem bus_writes_selected :
  (forall d, wf d ->
     exists t, wire (show d).2 = wire d ++ t /\ writes_selected t) /\
  (forall d, exists t, wire (_init d).2 = wire d ++ t /\ writes_selected t).
Proof.
  split.
  - intros d Hwf. destruct (show_run d Hwf) as [_ Hlog]. cbv zeta in Hlog.
    eexists. split; [exact Hlog|].
    eapply writes_selected_prefix; [apply replay_prefix|].
    apply sel_check_selected, sel_check_frame.
  - intros d. destruct (init_run d) as [_ Hlog].
    eexists. split; [exact Hlog|].
    eapply writes_selected_prefix; [apply replay_prefix|].
    apply sel_check_selected, sel_check_init.
Qed.

Lemma bus_writes_selected_witness :
  (exists t,
      wire (show panel_4x2_failing).2 = wire panel_4x2_failing ++ t /\
      writes_selected t) /\
  (exists t,
      wire (_init panel_3x2_dead).2 = wire panel_3x2_dead ++ t /\
      writes_selected t).
Proof.
  split.
  - apply (proj1 bus_writes_selected panel_4x2_failing).
    repeat split; simpl; lia.
  - apply (proj2 bus_writes_selected panel_3x2_dead).
Defined.

(** X11. The three ways a command with data can go. If the transport
    refuses the command byte, [_wcd] ends with the exception, the payload
    is never written and chip-select stays asserted. If it accepts the
    command byte and refuses the payload, [_wcd] ends with the exception
    after the payload write, chip-select again left asserted. Otherwise it
    returns after the eight calls, chip-select deasserted. The device
    fields are untouched in all three. *)
Theorem wcd_cases (c p : list byte) (s : ST7735R) :
  let k := writes (wire s) in
  (_spi s k = true ->
   _wcd c p s = (Raised, logs [Dc 0; Cs 0; SpiWrite c] s)) /\
  (_spi s k = false -> _spi s (S k) = true ->
   _wcd c p s
   = (Raised,
      logs [Dc 0; Cs 0; SpiWrite c; Cs 1; Dc 1; Cs 0; SpiWrite p] s)) /\
  (_spi s k = false -> _spi s (S k) = false ->
   _wcd c p s
   = (Ok tt,
      logs [Dc 0; Cs 0; SpiWrite c; Cs 1; Dc 1; Cs 0; SpiWrite p; Cs 1] s)).
Proof.
  intros k. rewrite emits_wcd. unfold run_events, wcd_events. cbn [replay].
  fold k. repeat split.
  - by intros ->.
  - by intros -> ->.
  - by intros -> ->.
Qed.

Lemma wcd_cases_witness :
  _wcd RAMWR [x00; x1c] panel_3x2_dead
  = (Raised, logs [Dc 0; Cs 0; SpiWrite RAMWR] panel_3x2_dead) /\
  _wcd RAMWR [x00; x1c] panel_3x2
  = (Ok tt, logs (wcd_events RAMWR [x00; x1c]) panel_3x2).
Proof.
  destruct (wcd_cases RAMWR [x00; x1c] panel_3x2_dead) as (H1 & _).
  destruct (wcd_cases RAMWR [x00; x1c] panel_3x2) as (_ & _ & H3).
  split; [apply H1|apply H3]; reflexivity.
Defined.

(** X12. A refresh keeps the constructor-time invariant, also when it ends
    with an exception: the line buffer keeps its length and the transport is
    the same object, so the device can be refreshed again. *)
Theorem show_keeps_invariant (d : ST7735R) :
  wf d ->
  wf (show d).2 /\
  length (_linebuf (show d).2) = length (_linebuf d) /\
  _spi (show d).2 = _spi d.
Proof.
  intros Hwf. destruct (show_plays d Hwf) as (lb & Hlen & Hrun).
  rewrite Hrun. destruct Hwf as (Hh & Hw & Hbuf & Hlb).
  repeat split; simpl; congruence.
Qed.

Lemma show_keeps_invariant_witness :
  wf (show panel_4x2_failing).2 /\
  length (_linebuf (show panel_4x2_failing).2) = 4%nat.
Proof.
  destruct (show_keeps_invariant panel_4x2_failing panel_4x2_failing_wf)
    as (H1 & H2 & _).
  split; [exact H1|exact H2].
Defined.

(** X13. Refreshing twice sends the same frame twice: on a transport that
    accepts every write, the second [show] returns as well and adds to the
    log exactly the events that the first one added. *)
Theorem show_twice (d : ST7735R) :
  wf d -> reliable d ->
  exists s1 s2 t,
    show d = (Ok tt, s1) /\
    show s1 = (Ok tt, s2) /\
    wire s1 = wire d ++ t /\
    wire s2 = wire s1 ++ t.
Proof.
  intros Hwf Hrel. destruct (show_reliable d Hwf Hrel) as (lb & Hlen & Hrun).
  set (s1 := set_linebuf lb (logs _ d)) in Hrun.
  assert (Hwf1 : wf s1).
  { destruct Hwf as (Hh & Hw & Hbuf & Hlb). repeat split; simpl; congruence. }
  assert (Hrel1 : reliable s1) by exact Hrel.
  destruct (show_reliable s1 Hwf1 Hrel1) as (lb' & _ & Hrun').
  eexists _, _, _. split; [exact Hrun|]. split; [exact Hrun'|].
  split; reflexivity.
Qed.

Lemma show_twice_witness :
  exists s1 s2 t,
    show panel_3x2 = (Ok tt, s1) /\
    show s1 = (Ok tt, s2) /\
    wire s1 = wire panel_3x2 ++ t /\
    wire s2 = wire s1 ++ t.
Proof. exact (show_twice panel_3x2 panel_3x2_wf panel_3x2_reliable). Defined.

(** ** What a refresh transmits *)

Lemma payloads_ramwr_frame buf wd k start row :
  payloads RAMWR (frame_events buf wd k start row)
  = map (fun st => encode_line (drop (Z.to_nat st) buf) (Z.to_nat wd))
        (starts k start wd).
Proof.
  unfold payloads. rewrite issued_ramwr_frame, map_map. simpl.
  apply (concat_singletons
           (fun st => encode_line (drop (Z.to_nat st) buf) (Z.to_nat wd))).
Qed.






(** ** Initialisation and construction *)

Lemma no_write_prefix (h : list event) :
  forall (R T : list event) p rest,
    writes h = 0%nat ->
    h ++ R = T ++ SpiWrite p :: rest ->
    exists T', T = h ++ T'.
Proof.
  induction h as [|e h IH]; intros R T p rest Hw Heq; [by exists T|].
  destruct T as [|e' T].
  - injection Heq as -> _. done.
  - injection Heq as -> Heq.
    assert (Hw' : writes h = 0%nat) by (destruct e'; simpl in Hw; lia).
    destruct (IH _ _ _ _ Hw' Heq) as [T' ->]. by exists T'.
Qed.

(** X15. [_init] touches nothing but the pins and the bus: the pixel
    buffer, the line buffer and the dimensions are as before. It ends in one
    of two ways, whatever the transport does. Either it returns: then the
    transport accepted all 33 writes, the log has grown by the full
    sequence of 19 commands, and 519 ms were spent in [sleep_ms]. Or it
    ends with the exception of the first write that the transport refuses:
    the hardware reset has been done in full before it, that write is the
    last call made, with chip-select asserted right before it, and the rest
    of the sequence is not sent. *)
Theorem init_returns_or_raises (d : ST7735R) :
  (buffer (_init d).2 = buffer d /\ _linebuf (_init d).2 = _linebuf d /\
   height (_init d).2 = height d /\ width (_init d).2 = width d) /\
  (((_init d).1 = Ok tt /\
    (forall j, (j < 33)%nat -> _spi d (writes (wire d) + j)%nat = false) /\
    exists t,
      wire (_init d).2 = wire d ++ t /\
      writes t = 33%nat /\ length (commands t) = 19%nat /\ slept t = 519) \/
   ((_init d).1 = Raised /\
    exists t1 p,
      wire (_init d).2
      = wire d ++ hwreset_events ++ t1 ++ [Cs 0; SpiWrite p] /\
      (writes t1 < 33)%nat /\
      _spi d (writes (wire d) + writes t1)%nat = true /\
      forall j, (j < writes t1)%nat ->
                _spi d (writes (wire d) + j)%nat = false)).
Proof.
  split.
  - rewrite emits_init. unfold run_events.
    by destruct (replay (_spi d) (writes (wire d)) init_events).
  - destruct (init_run d) as [Hres Hlog]. rewrite Hres, Hlog.
    clear Hres Hlog.
    destruct (replay_outcome (_spi d) init_events (writes (wire d)))
      as [[-> Hok]|(t0 & p & rest & Hevs & -> & Hf & Hok)].
    + left. split; [done|].
      change (writes init_events) with 33%nat in Hok. split; [exact Hok|].
      exists init_events. by repeat split.
    + right. split; [done|].
      assert (Hsplit : init_events = hwreset_events ++ drop 7 init_events)
        by reflexivity.
      rewrite Hsplit in Hevs.
      destruct (no_write_prefix hwreset_events _ _ _ _ eq_refl Hevs) as [T' ->].
      rewrite <- app_assoc in Hevs. apply app_inv_head in Hevs.
      destruct (sel_check_sound T' (drop 7 init_events) false p rest
                  eq_refl Hevs)
        as [[_ ?]|[t1 ->]]; [done|].
      exists t1, p.
      assert (Hw : writes (drop 7 init_events) = 33%nat) by reflexivity.
      rewrite Hevs, !writes_app in Hw. rewrite !writes_app in Hf, Hok.
      simpl in Hw, Hf, Hok. rewrite Nat.add_0_r in Hf, Hok.
      split; [by rewrite <- !app_assoc|]. split; [lia|]. by split.
Qed.

Lemma init_returns_or_raises_witness :
  (_init panel_3x2_dead).1 = Raised /\
  exists t1 p,
    wire (_init panel_3x2_dead).2
    = wire panel_3x2_dead ++ hwreset_events ++ t1 ++ [Cs 0; SpiWrite p] /\
    (writes t1 < 33)%nat.
Proof.
  destruct (init_returns_or_raises panel_3x2_dead)
    as [_ [[H _]|[H (t1 & p & H1 & H2 & _)]]].
  - vm_compute in H. discriminate H.
  - split; [exact H|]. by exists t1, p.
Defined.




Lemma bind_init_show (d : ST7735R) :
  (_init;; show) d
  = match (_init d).1 with
    | Ok _ => show (_init d).2
    | Raised => (Raised, (_init d).2)
    | OutOfBounds => (OutOfBounds, (_init d).2)
    | OutOfFuel => (OutOfFuel, (_init d).2)
    end.
Proof.
  unfold mbind, M_bind. by destruct (_init d) as [[[]| | |] s].
Qed.



Lemma flat_map_wire_pixel_zeros (j : nat) :
  flat_map wire_pixel (replicate j x00) = replicate (2 * j) x00.
Proof.
  induction j as [|j IH]; [done|].
  cbn [replicate flat_map]. rewrite IH.
  replace (2 * S j)%nat with (S (S (2 * j))) by lia. reflexivity.
Qed.

Lemma encode_line_zeros (n st k : nat) :
  (st + k <= n)%nat ->
  encode_line (drop st (replicate n x00)) k = replicate (2 * k) x00.
Proof.
  intros H. unfold encode_line.
  rewrite drop_replicate, take_replicate, flat_map_wire_pixel_zeros.
  do 2 f_equal. lia.
Qed.

Lemma blank_lines (n : nat) (wd : Z) (k : nat) :
  forall start : Z,
    0 <= wd -> 0 <= start ->
    (Z.to_nat start + k * Z.to_nat wd <= n)%nat ->
    map (fun st => encode_line (drop (Z.to_nat st) (replicate n x00))
                               (Z.to_nat wd))
        (starts k start wd)
    = replicate k (replicate (2 * Z.to_nat wd) x00).
Proof.
  induction k as [|k IH]; intros start Hwd Hst Hn; [done|].
  cbn [starts map replicate]. rewrite IH by lia.
  rewrite encode_line_zeros by lia. reflexivity.
Qed.

(** X17. On a transport that accepts every write, constructing a device
    with dimensions that are not negative returns, and what it puts on the
    wire is the whole initialisation sequence followed by one full refresh
    of a black screen: [height] write-memory commands, each with a payload
    of [2 * width] zero bytes. *)
Theorem constructor_blank_frame (spi : nat -> bool) (wire0 : list event)
    (h w : Z) :
  (forall k, spi k = false) ->
  0 <= h -> 0 <= w ->
  exists d t,
    __init__ spi wire0 h w = Some (Ok tt, d) /\
    wire d = wire0 ++ init_events ++ t /\
    payloads RAMWR t
    = replicate (Z.to_nat h) (replicate (Z.to_nat (2 * w)) x00).
Proof.
  intros Hspi Hh Hw. unfold __init__, bytearray.
  destruct (decide (h * w < 0)) as [|_]; [nia|].
  destruct (decide (w * 2 < 0)) as [|_]; [lia|].
  cbn [mbind option_bind].
  set (d0 := mkST7735R spi h w (replicate (Z.to_nat (h * w)) x00)
                       (replicate (Z.to_nat (w * 2)) x00) wire0).
  assert (Hd0 : wf d0).
  { repeat split; simpl; rewrite ?length_replicate; lia. }
  rewrite bind_init_show, emits_init. unfold run_events.
  rewrite replay_reliable by exact Hspi. cbn [fst snd].
  assert (Hd1 : wf (logs init_events d0)) by exact Hd0.
  destruct (show_reliable _ Hd1) as (lb & _ & Hrun); [exact Hspi|].
  rewrite Hrun. eexists _, _. split; [reflexivity|].
  split; [cbn [wire set_linebuf logs d0]; by rewrite <- app_assoc|].
  rewrite payloads_ramwr_frame. cbn [buffer width height logs d0].
  rewrite blank_lines; [|lia|lia|].
  - do 2 f_equal. lia.
  - nia.
Qed.

Lemma constructor_blank_frame_witness :
  exists d t,
    __init__ (fun _ => false) [] 2 2 = Some (Ok tt, d) /\
    wire d = [] ++ init_events ++ t /\
    payloads RAMWR t = replicate 2 (replicate 4 x00).
Proof.
  apply (constructor_blank_frame (fun _ => false) [] 2 2); [done|lia|lia].
Defined.

Lemma lcopy_in_bounds_iff_witness :
  is_Some (_lcopy [x00; x00; x00; x00] [xe0; x1f] 2) /\
  ~ is_Some (_lcopy [x00; x00; x00] [xe0; x1f] 2).
Proof.
  split.
  - apply (proj2 (lcopy_in_bounds_iff [x00; x00; x00; x00] [xe0; x1f] 2)).
    right. simpl. lia.
  - intros H.
    apply (proj1 (lcopy_in_bounds_iff [x00; x00; x00] [xe0; x1f] 2)) in H.
    simpl in H. lia.
Defined.

(** X18. The two ways a bare command can go. If the transport refuses the
    byte, [_wcmd] ends with the exception right after the write and
    chip-select stays asserted; otherwise it returns after the four calls,
    chip-select deasserted. The device fields are untouched in both. *)
Theorem wcmd_cases (c : list byte) (s : ST7735R) :
  (_spi s (writes (wire s)) = true ->
   _wcmd c s = (Raised, logs [Dc 0; Cs 0; SpiWrite c] s)) /\
  (_spi s (writes (wire s)) = false ->
   _wcmd c s = (Ok tt, logs [Dc 0; Cs 0; SpiWrite c; Cs 1] s)).
Proof.
  rewrite emits_wcmd. unfold run_events, wcmd_events. cbn [replay].
  split; by intros ->.
Qed.

Lemma wcmd_cases_witness :
  _wcmd [x29] panel_3x2_dead
  = (Raised, logs [Dc 0; Cs 0; SpiWrite [x29]] panel_3x2_dead) /\
  _wcmd [x29] panel_3x2
  = (Ok tt, logs [Dc 0; Cs 0; SpiWrite [x29]; Cs 1] panel_3x2).
Proof.
  split.
  - apply (proj1 (wcmd_cases [x29] panel_3x2_dead)). reflexivity.
  - apply (proj2 (wcmd_cases [x29] panel_3x2)). reflexivity.
Defined.
